(** * Carrier integration service: rate-shopping pipeline for UPS

    A shallow embedding of the TypeScript sources

      - [src/errors.ts]                 structured errors
      - [src/domain.ts]                 zod schemas of the domain model
      - [src/http-client.ts]            transport interface
      - [src/auth/ups-oauth.ts]         OAuth token acquisition and cache
      - [src/carriers/ups/ups-rate.ts]  wire mapper and rate client
      - [src/carriers/ups/ups-carrier.ts], [src/service.ts]

    followed by the properties proved about them.

    Modelling conventions.

    - A JavaScript string is a [string] of 8-bit code units; text outside
      ASCII in a literal stands as its UTF-8 bytes.
    - A JavaScript number is [NaN], an infinity, or a finite value kept as the
      exact rational it denotes, in lowest terms ([Qred]); a literal that
      exceeds the binary64 range becomes an infinity as in the language, the
      rounding of the mantissa to 53 bits is not represented, and [-0] is
      identified with [0].
    - Millisecond timestamps, HTTP statuses and validated integer fields
      are [Z].
    - Asynchronous code is sequential code in a state-and-exception monad
      over a [World] holding the token cache, the clock and the log of
      requests handed to the transport. *)

From Stdlib Require Import String Ascii List ZArith QArith Qabs Qpower Qreduction Qcanon Bool Lia.
From Stdlib Require Import DecimalString.
Import ListNotations.

Set Warnings "-register-all".

Local Open Scope string_scope.
Local Open Scope Z_scope.

(** ** JavaScript numbers *)

Inductive JsNumber : Type :=
| NaN
| Infinity (negative : bool)
| Finite (q : Q).

(** Magnitudes from [2^1024 - 2^970] on round to an infinity in binary64. *)
Definition overflowBound : Z := 2 ^ 1024 - 2 ^ 970.

Definition Qnegative (q : Q) : bool := Qnum q <? 0.

(** The number value of a mathematical value (ECMAScript's conversion of a
    real to a Number). *)
Definition toNumber (q : Q) : JsNumber :=
  if Qle_bool (inject_Z overflowBound) (Qabs q)
  then Infinity (Qnegative q)
  else Finite (Qred q).

Definition Number_isNaN (n : JsNumber) : bool :=
  match n with
  | NaN => true
  | _ => false
  end.

(** ** Scanning numeric literals: [parseFloat] and [parseInt(_, 10)] *)

(** White space and line terminators among the 8-bit code units:
    TAB, LF, VT, FF, CR, SP, NBSP. *)
Definition isWhiteSpace (c : ascii) : bool :=
  let n := N_of_ascii c in
  (((9 <=? n) && (n <=? 13)) || (n =? 32) || (n =? 160))%N.

Fixpoint trimStart (s : string) : string :=
  match s with
  | String c rest => if isWhiteSpace c then trimStart rest else s
  | EmptyString => EmptyString
  end.

Definition isDigit (c : ascii) : bool :=
  let n := N_of_ascii c in ((48 <=? n) && (n <=? 57))%N.

Definition digitValue (c : ascii) : Z := Z.of_N (N_of_ascii c) - 48.

(** Longest prefix of decimal digits, and what follows it. *)
Fixpoint spanDigits (s : string) : string * string :=
  match s with
  | String c rest =>
      if isDigit c
      then let (ds, r) := spanDigits rest in (String c ds, r)
      else (EmptyString, s)
  | EmptyString => (EmptyString, EmptyString)
  end.

(** Left-to-right accumulation of a digit string. *)
Fixpoint digitsValueFrom (acc : Z) (s : string) : Z :=
  match s with
  | String c rest => digitsValueFrom (acc * 10 + digitValue c) rest
  | EmptyString => acc
  end.

Definition digitsValue (s : string) : Z := digitsValueFrom 0 s.

(** An optional sign: [(negative, rest)]. *)
Definition scanSign (s : string) : bool * string :=
  match s with
  | String "+"%char rest => (false, rest)
  | String "-"%char rest => (true, rest)
  | _ => (false, s)
  end.

(** [ExponentPart] when one is present at the head of [s], else 0. *)
Definition scanExponent (s : string) : Z :=
  match s with
  | String c rest =>
      if (Ascii.eqb c "e" || Ascii.eqb c "E")%bool
      then
        let (neg, r) := scanSign rest in
        let (ds, _) := spanDigits r in
        match ds with
        | EmptyString => 0
        | _ => if neg then - digitsValue ds else digitsValue ds
        end
      else 0
  | EmptyString => 0
  end.

(** A scanned [StrUnsignedDecimalLiteral]. *)
Inductive UnsignedLiteral : Type :=
| LitInfinity
| LitDecimal (intDigits fracDigits : string) (exponent : Z).

Definition scanUnsignedLiteral (s : string) : option UnsignedLiteral :=
  if prefix "Infinity" s then Some LitInfinity
  else
    let (ip, r1) := spanDigits s in
    match r1 with
    | String "."%char r2 =>
        let (fp, r3) := spanDigits r2 in
        match ip, fp with
        | EmptyString, EmptyString => None
        | _, _ => Some (LitDecimal ip fp (scanExponent r3))
        end
    | _ =>
        match ip with
        | EmptyString => None
        | _ => Some (LitDecimal ip EmptyString (scanExponent r1))
        end
    end.

(** Mathematical value of a decimal literal:
    [digits(ip ++ fp) * 10 ^ (e - |fp|)]. *)
Definition literalValue (ip fp : string) (e : Z) : Q :=
  (inject_Z (digitsValue (ip ++ fp))
   * Qpower (inject_Z 10) (e - Z.of_nat (String.length fp)))%Q.

Definition signedQ (neg : bool) (q : Q) : Q := if neg then Qopp q else q.

Definition parseFloat (s : string) : JsNumber :=
  let (neg, r) := scanSign (trimStart s) in
  match scanUnsignedLiteral r with
  | None => NaN
  | Some LitInfinity => Infinity neg
  | Some (LitDecimal ip fp e) => toNumber (signedQ neg (literalValue ip fp e))
  end.

(** [parseInt(s, 10)]: radix 10, so no [0x] prefix is recognised. *)
Definition parseInt10 (s : string) : JsNumber :=
  let (neg, r) := scanSign (trimStart s) in
  let (ds, _) := spanDigits r in
  match ds with
  | EmptyString => NaN
  | _ => toNumber (signedQ neg (inject_Z (digitsValue ds)))
  end.

(** ** JavaScript values *)

(** Values that reach the core as [unknown]: response bodies, raw requests,
    diagnostic context. An object is a list of fields read by first match. *)
Inductive JsValue : Type :=
| JUndefined
| JNull
| JBool (b : bool)
| JNum (n : JsNumber)
| JStr (s : string)
| JArr (items : list JsValue)
| JObj (fields : list (string * JsValue)).

Fixpoint getField (k : string) (fields : list (string * JsValue)) : JsValue :=
  match fields with
  | [] => JUndefined
  | (k', v) :: rest => if String.eqb k k' then v else getField k rest
  end.

Definition indexString (i : nat) : string :=
  NilZero.string_of_uint (Nat.to_uint i).

(** Property read [v[k]] / [v.k] on a value that is neither [null] nor
    [undefined]: own fields of objects, elements of arrays, code units of
    strings; anything else reads as [undefined]. The keys read this way are
    literals of the code ("response", "errors", 0, "code" and the keys of the
    schemas), none of which names a member a prototype provides. *)
Fixpoint nthByKey (k : string) (i : nat) (items : list JsValue) : JsValue :=
  match items with
  | [] => JUndefined
  | v :: rest => if String.eqb k (indexString i) then v else nthByKey k (S i) rest
  end.

Fixpoint charByKey (k : string) (i : nat) (s : string) : JsValue :=
  match s with
  | EmptyString => JUndefined
  | String c rest =>
      if String.eqb k (indexString i) then JStr (String c EmptyString)
      else charByKey k (S i) rest
  end.

Definition getProp (v : JsValue) (k : string) : JsValue :=
  match v with
  | JObj fields => getField k fields
  | JArr items => nthByKey k 0 items
  | JStr s => charByKey k 0 s
  | _ => JUndefined
  end.

Definition isNullish (v : JsValue) : bool :=
  match v with
  | JUndefined | JNull => true
  | _ => false
  end.

(** Optional chaining [v?.k]. *)
Definition optProp (v : JsValue) (k : string) : JsValue :=
  if isNullish v then JUndefined else getProp v k.

(** Truthiness of a value. *)
Definition truthy (v : JsValue) : bool :=
  match v with
  | JUndefined | JNull => false
  | JBool b => b
  | JNum NaN => false
  | JNum (Finite q) => negb (Qnum q =? 0)
  | JNum (Infinity _) => true
  | JStr s => negb (String.eqb s "")
  | JArr _ | JObj _ => true
  end.

(** [typeof v === "object"] *)
Definition typeofObject (v : JsValue) : bool :=
  match v with
  | JNull | JArr _ | JObj _ => true
  | _ => false
  end.

(** [a ?? b] on an optional field. *)
Definition orElse {A : Type} (o : option A) (d : A) : A :=
  match o with
  | Some a => a
  | None => d
  end.

(** [o?.f] on an optional record. *)
Definition andThen {A B : Type} (o : option A) (f : A -> option B) : option B :=
  match o with
  | Some a => f a
  | None => None
  end.

Fixpoint joinWith (sep : string) (l : list string) : string :=
  match l with
  | [] => ""
  | [x] => x
  | x :: rest => x ++ sep ++ joinWith sep rest
  end.

Definition stringOfZ (z : Z) : string := NilZero.string_of_int (Z.to_int z).

(** [haystack.includes(needle)] *)
Fixpoint includes (needle haystack : string) : bool :=
  if prefix needle haystack then true
  else match haystack with
       | EmptyString => false
       | String _ rest => includes needle rest
       end.

(** ** Structured errors ([src/errors.ts]) *)

Inductive ErrorCode : Type :=
| VALIDATION_ERROR
| AUTH_FAILED
| AUTH_TOKEN_EXPIRED
| RATE_LIMITED
| NETWORK_ERROR
| TIMEOUT
| CARRIER_ERROR
| MALFORMED_RESPONSE
| UNKNOWN.

(** A thrown value that is not a [CarrierIntegrationError]: an [Error]
    instance with its [name] and [message], or any other value. *)
Inductive RawThrown : Type :=
| JsError (name message : string)
| JsOther (v : JsValue).

Record CarrierIntegrationError : Type := {
  code : ErrorCode;
  message : string;
  statusCode : option Z;
  carrierCode : option string;
  context : option (list (string * JsValue));
  cause : option RawThrown
}.

Inductive Thrown : Type :=
| ThrownCIE (e : CarrierIntegrationError)
| ThrownRaw (r : RawThrown).

Definition isCarrierIntegrationError (t : Thrown) : bool :=
  match t with
  | ThrownCIE _ => true
  | ThrownRaw _ => false
  end.

(** Completion of a call: a value or a thrown exception. *)
Inductive Completion (A : Type) : Type :=
| Return (a : A)
| Throw (t : Thrown).
Arguments Return {A} a.
Arguments Throw {A} t.

(** ** Schema validation (zod) *)

Record ZodIssue : Type := {
  path : list string;
  issueMessage : string
}.

Inductive SafeParse (A : Type) : Type :=
| ParseSuccess (data : A)
| ParseFailure (issues : list ZodIssue).
Arguments ParseSuccess {A} data.
Arguments ParseFailure {A} issues.

Definition Schema (A : Type) : Type := JsValue -> SafeParse A.

Definition parsedType (v : JsValue) : string :=
  match v with
  | JUndefined => "undefined"
  | JNull => "null"
  | JBool _ => "boolean"
  | JNum NaN => "nan"
  | JNum _ => "number"
  | JStr _ => "string"
  | JArr _ => "array"
  | JObj _ => "object"
  end.

Definition invalidType (expected : string) (v : JsValue) : ZodIssue :=
  {| path := [];
     issueMessage :=
       match v with
       | JUndefined => "Required"
       | _ => "Expected " ++ expected ++ ", received " ++ parsedType v
       end |}.

Definition issue (msg : string) : ZodIssue := {| path := []; issueMessage := msg |}.

Definition under (k : string) (i : ZodIssue) : ZodIssue :=
  {| path := k :: path i; issueMessage := issueMessage i |}.

Definition atKey {A : Type} (k : string) (r : SafeParse A) : SafeParse A :=
  match r with
  | ParseSuccess a => ParseSuccess a
  | ParseFailure iss => ParseFailure (map (under k) iss)
  end.

(** Issues of all fields are collected. *)
Definition zap {A B : Type} (f : SafeParse (A -> B)) (x : SafeParse A) : SafeParse B :=
  match f, x with
  | ParseSuccess g, ParseSuccess a => ParseSuccess (g a)
  | ParseSuccess _, ParseFailure j => ParseFailure j
  | ParseFailure i, ParseSuccess _ => ParseFailure i
  | ParseFailure i, ParseFailure j => ParseFailure (i ++ j)%list
  end.

Declare Scope zod_scope.
Delimit Scope zod_scope with zod.
Notation "f <$> x" := (zap (ParseSuccess f) x) (at level 61, left associativity) : zod_scope.
Notation "f <*> x" := (zap f x) (at level 61, left associativity) : zod_scope.

(** [z.string()] *)
Definition z_string : Schema string :=
  fun v => match v with
           | JStr s => ParseSuccess s
           | _ => ParseFailure [invalidType "string" v]
           end.

(** [z.string().min(1, msg)] *)
Definition z_string_min1 (msg : string) : Schema string :=
  fun v => match v with
           | JStr s => if String.eqb s "" then ParseFailure [issue msg] else ParseSuccess s
           | _ => ParseFailure [invalidType "string" v]
           end.

(** [z.string().max(n)] *)
Definition z_string_max (n : nat) : Schema string :=
  fun v => match v with
           | JStr s =>
               if (String.length s <=? n)%nat then ParseSuccess s
               else ParseFailure
                      [issue ("String must contain at most " ++ indexString n ++ " character(s)")]
           | _ => ParseFailure [invalidType "string" v]
           end.

(** [z.string().length(n, msg)] *)
Definition z_string_length (n : nat) (msg : string) : Schema string :=
  fun v => match v with
           | JStr s => if (String.length s =? n)%nat then ParseSuccess s else ParseFailure [issue msg]
           | _ => ParseFailure [invalidType "string" v]
           end.

(** [s.optional()] *)
Definition z_optional {A : Type} (s : Schema A) : Schema (option A) :=
  fun v => match v with
           | JUndefined => ParseSuccess None
           | _ => match s v with
                  | ParseSuccess a => ParseSuccess (Some a)
                  | ParseFailure iss => ParseFailure iss
                  end
           end.

(** [z.object({...})]: the argument validates the fields. *)
Definition z_object {A : Type} (shape : list (string * JsValue) -> SafeParse A) : Schema A :=
  fun v => match v with
           | JObj fields => shape fields
           | _ => ParseFailure [invalidType "object" v]
           end.

Definition field {A : Type} (fields : list (string * JsValue)) (k : string) (s : Schema A)
  : SafeParse A :=
  atKey k (s (getField k fields)).

Fixpoint parseItems {A : Type} (s : Schema A) (i : nat) (items : list JsValue)
  : SafeParse (list A) :=
  match items with
  | [] => ParseSuccess []
  | v :: rest => (cons <$> atKey (indexString i) (s v) <*> parseItems s (S i) rest)%zod
  end.

(** [z.array(s)] *)
Definition z_array {A : Type} (s : Schema A) : Schema (list A) :=
  fun v => match v with
           | JArr items => parseItems s 0 items
           | _ => ParseFailure [invalidType "array" v]
           end.

(** [issues.map(i => `${i.path.join(".")}: ${i.message}`).join("; ")] *)
Definition formatIssues (iss : list ZodIssue) : string :=
  joinWith "; " (map (fun i => joinWith "." (path i) ++ ": " ++ issueMessage i) iss).

(** [error.flatten()]: messages of issues without a path, and messages
    grouped under the first path element. *)
Fixpoint addFieldError (k msg : string) (groups : list (string * list string))
  : list (string * list string) :=
  match groups with
  | [] => [(k, [msg])]
  | (k', ms) :: rest =>
      if String.eqb k k' then (k', (ms ++ [msg])%list) :: rest
      else (k', ms) :: addFieldError k msg rest
  end.

Definition fieldErrors (iss : list ZodIssue) : list (string * list string) :=
  fold_left (fun acc i => match path i with
                          | [] => acc
                          | k :: _ => addFieldError k (issueMessage i) acc
                          end) iss [].

Definition formErrors (iss : list ZodIssue) : list string :=
  flat_map (fun i => match path i with
                     | [] => [issueMessage i]
                     | _ => []
                     end) iss.

Definition flatten (iss : list ZodIssue) : JsValue :=
  JObj [("formErrors", JArr (map JStr (formErrors iss)));
        ("fieldErrors", JObj (map (fun g => (fst g, JArr (map JStr (snd g)))) (fieldErrors iss)))].
(** ** Domain model and its validation ([src/domain.ts]) *)

Record Address : Type := {
  line1 : string;
  line2 : option string;
  line3 : option string;
  city : string;
  stateProvinceCode : option string;
  postalCode : string;
  countryCode : string
}.

Definition AddressSchema : Schema Address :=
  z_object (fun f =>
    (Build_Address
       <$> field f "line1" (z_string_min1 "Address line1 is required")
       <*> field f "line2" (z_optional z_string)
       <*> field f "line3" (z_optional z_string)
       <*> field f "city" (z_string_min1 "City is required")
       <*> field f "stateProvinceCode" (z_optional (z_string_max 10))
       <*> field f "postalCode" (z_string_min1 "Postal code is required")
       <*> field f "countryCode"
             (z_string_length 2 "Country code must be 2 characters (ISO 3166-1 alpha-2)"))%zod).

Inductive WeightUnit : Type := LBS | KGS.
Inductive DimensionUnit : Type := IN | CM.

Record Package : Type := {
  weight : JsNumber;
  weightUnit : WeightUnit;
  length : option JsNumber;
  width : option JsNumber;
  height : option JsNumber;
  dimensionUnit : DimensionUnit
}.

Definition isPositive (n : JsNumber) : bool :=
  match n with
  | NaN => false
  | Infinity neg => negb neg
  | Finite q => 0 <? Qnum q
  end.

(** [z.number().positive(msg)] *)
Definition z_number_positive (msg : string) : Schema JsNumber :=
  fun v => match v with
           | JNum NaN => ParseFailure [invalidType "number" v]
           | JNum n => if isPositive n then ParseSuccess n else ParseFailure [issue msg]
           | _ => ParseFailure [invalidType "number" v]
           end.

Fixpoint enumLookup {A : Type} (s : string) (options : list (string * A)) : option A :=
  match options with
  | [] => None
  | (k, a) :: rest => if String.eqb s k then Some a else enumLookup s rest
  end.

(** [z.enum([...]).default(d)] *)
Definition z_enum_default {A : Type} (options : list (string * A)) (d : A) : Schema A :=
  let expected := joinWith " | " (map (fun o => "'" ++ fst o ++ "'") options) in
  fun v => match v with
           | JUndefined => ParseSuccess d
           | JStr s =>
               match enumLookup s options with
               | Some a => ParseSuccess a
               | None => ParseFailure
                           [issue ("Invalid enum value. Expected " ++ expected
                                   ++ ", received '" ++ s ++ "'")]
               end
           | _ => ParseFailure [issue ("Expected " ++ expected ++ ", received " ++ parsedType v)]
           end.

Definition PackageSchema : Schema Package :=
  z_object (fun f =>
    (Build_Package
       <$> field f "weight" (z_number_positive "Weight must be positive")
       <*> field f "weightUnit" (z_enum_default [("LBS", LBS); ("KGS", KGS)] LBS)
       <*> field f "length" (z_optional (z_number_positive "Number must be greater than 0"))
       <*> field f "width" (z_optional (z_number_positive "Number must be greater than 0"))
       <*> field f "height" (z_optional (z_number_positive "Number must be greater than 0"))
       <*> field f "dimensionUnit" (z_enum_default [("IN", IN); ("CM", CM)] IN))%zod).

Record RateRequest : Type := {
  origin : Address;
  destination : Address;
  packages : list Package;
  req_serviceCode : option string
}.

(** [z.array(s).min(1, msg)] *)
Definition z_array_min1 {A : Type} (s : Schema A) (msg : string) : Schema (list A) :=
  fun v => match v with
           | JArr [] => ParseFailure [issue msg]
           | JArr items => parseItems s 0 items
           | _ => ParseFailure [invalidType "array" v]
           end.

Definition RateRequestSchema : Schema RateRequest :=
  z_object (fun f =>
    (Build_RateRequest
       <$> field f "origin" AddressSchema
       <*> field f "destination" AddressSchema
       <*> field f "packages" (z_array_min1 PackageSchema "At least one package is required")
       <*> field f "serviceCode" (z_optional (z_string_max 10)))%zod).

(** The value held by [serviceName]. The field is declared a [string]; the
    mapper fills it from a read of a plain object by the carrier's code, and
    for a code that names a member of [Object.prototype] that read yields the
    inherited member: a function, or for [__proto__] the prototype object. *)
Inductive ServiceName : Type :=
| NameString (s : string)
| NameInherited (member : string).

Record RateQuote : Type := {
  carrier : string;
  serviceCode : string;
  serviceName : ServiceName;
  totalCharge : JsNumber;
  currencyCode : string;
  transitDays : option JsNumber;
  carrierServiceId : option string
}.

Record RateResponse : Type := {
  quotes : list RateQuote;
  requestId : option string
}.

(** ** Wire mapper ([src/carriers/ups/ups-rate.ts]) *)

(** *** Response schema *)

Record UpsService : Type := {
  Service_Code : option string;
  Service_Name : option string
}.

Record UpsTotalCharges : Type := {
  MonetaryValue : option string;
  CurrencyCode : option string
}.

Record UpsGuaranteedDelivery : Type := {
  BusinessDaysInTransit : option string
}.

Record UpsRatedShipment : Type := {
  Service : option UpsService;
  TotalCharges : option UpsTotalCharges;
  GuaranteedDelivery : option UpsGuaranteedDelivery
}.

Record UpsResponseStatus : Type := {
  Status_Code : option string;
  Status_Description : option string
}.

Record UpsResponse : Type := {
  ResponseStatus : option UpsResponseStatus
}.

Record UpsRateResponseInner : Type := {
  Response : option UpsResponse;
  RatedShipment : option (list UpsRatedShipment)
}.

Record UpsRateResponseBody : Type := {
  RateResponse_ : option UpsRateResponseInner
}.

Definition UpsServiceSchema : Schema UpsService :=
  z_object (fun f =>
    (Build_UpsService
       <$> field f "Code" (z_optional z_string)
       <*> field f "Name" (z_optional z_string))%zod).

Definition UpsTotalChargesSchema : Schema UpsTotalCharges :=
  z_object (fun f =>
    (Build_UpsTotalCharges
       <$> field f "MonetaryValue" (z_optional z_string)
       <*> field f "CurrencyCode" (z_optional z_string))%zod).

Definition UpsGuaranteedDeliverySchema : Schema UpsGuaranteedDelivery :=
  z_object (fun f =>
    (Build_UpsGuaranteedDelivery
       <$> field f "BusinessDaysInTransit" (z_optional z_string))%zod).

Definition UpsRatedShipmentSchema : Schema UpsRatedShipment :=
  z_object (fun f =>
    (Build_UpsRatedShipment
       <$> field f "Service" (z_optional UpsServiceSchema)
       <*> field f "TotalCharges" (z_optional UpsTotalChargesSchema)
       <*> field f "GuaranteedDelivery" (z_optional UpsGuaranteedDeliverySchema))%zod).

Definition UpsResponseStatusSchema : Schema UpsResponseStatus :=
  z_object (fun f =>
    (Build_UpsResponseStatus
       <$> field f "Code" (z_optional z_string)
       <*> field f "Description" (z_optional z_string))%zod).

Definition UpsResponseSchema : Schema UpsResponse :=
  z_object (fun f =>
    (Build_UpsResponse
       <$> field f "ResponseStatus" (z_optional UpsResponseStatusSchema))%zod).

Definition UpsRateResponseInnerSchema : Schema UpsRateResponseInner :=
  z_object (fun f =>
    (Build_UpsRateResponseInner
       <$> field f "Response" (z_optional UpsResponseSchema)
       <*> field f "RatedShipment" (z_optional (z_array UpsRatedShipmentSchema)))%zod).

Definition UpsRateResponseSchema : Schema UpsRateResponseBody :=
  z_object (fun f =>
    (Build_UpsRateResponseBody
       <$> field f "RateResponse" (z_optional UpsRateResponseInnerSchema))%zod).

Definition UPS_RATING_PATH : string := "/api/ratings/v1/Shop".
Definition UPS_RATE_VERSION : string := "v1".

(** *** Request body *)

Record UpsAddress : Type := {
  AddressLine : option (list string);
  City : string;
  StateProvinceCode : option string;
  PostalCode : string;
  CountryCode : string
}.

Record UpsDimensions : Type := {
  Dimensions_UnitOfMeasurement : string;
  Length : string;
  Width : string;
  Height : string
}.

Record UpsPackageWeight : Type := {
  Weight_UnitOfMeasurement : string;
  Weight : string
}.

Record UpsPackage : Type := {
  Packaging_Code : string;
  Dimensions : option UpsDimensions;
  PackageWeight : UpsPackageWeight
}.

Record UpsRateRequest : Type := {
  RequestOption : list string;
  ShipFrom : UpsAddress;
  ShipTo : UpsAddress;
  Package_ : list UpsPackage;
  Shipment_Service : option string
}.

(** [[a, b, c].filter(Boolean)] on optional strings. *)
Definition filterBoolean (l : list (option string)) : list string :=
  flat_map (fun o => match o with
                     | Some s => if String.eqb s "" then [] else [s]
                     | None => []
                     end) l.

Definition toUpsAddress (addr : Address) : UpsAddress :=
  let lines := filterBoolean [Some (line1 addr); line2 addr; line3 addr] in
  {| AddressLine := match lines with
                    | [] => None
                    | _ => Some lines
                    end;
     City := city addr;
     StateProvinceCode := stateProvinceCode addr;
     PostalCode := postalCode addr;
     CountryCode := countryCode addr |}.

Section WireMapper.

(** [String(n)] on a number: the language's number-to-string conversion. *)
Variable numberToString : JsNumber -> string.

Definition toUpsPackage (pkg : Package) : UpsPackage :=
  let dimUnit := match dimensionUnit pkg with
                 | CM => "CM"
                 | IN => "IN"
                 end in
  let weightUnit := match weightUnit pkg with
                    | KGS => "KGS"
                    | LBS => "LBS"
                    end in
  {| Packaging_Code := "02";
     PackageWeight := {| Weight_UnitOfMeasurement := weightUnit;
                         Weight := numberToString (weight pkg) |};
     Dimensions :=
       match length pkg, width pkg, height pkg with
       | Some l, Some w, Some h =>
           Some {| Dimensions_UnitOfMeasurement := dimUnit;
                   Length := numberToString l;
                   Width := numberToString w;
                   Height := numberToString h |}
       | _, _, _ => None
       end |}.

Definition buildUpsRateRequest (req : RateRequest) : UpsRateRequest :=
  {| RequestOption := ["Shop"];
     ShipFrom := toUpsAddress (origin req);
     ShipTo := toUpsAddress (destination req);
     Package_ := map toUpsPackage (packages req);
     Shipment_Service :=
       match req_serviceCode req with
       | Some c => if String.eqb c "" then None else Some c
       | None => None
       end |}.

End WireMapper.

(** Known UPS service code -> display name: the own properties of the
    object literal. *)
Definition UPS_SERVICE_NAMES : list (string * string) :=
  [ ("01", "Next Day Air");
    ("02", "2nd Day Air");
    ("03", "Ground");
    ("07", "Worldwide Express");
    ("08", "Worldwide Expedited");
    ("11", "Standard");
    ("12", "3 Day Select");
    ("13", "Next Day Air Saver");
    ("14", "Next Day Air Early");
    ("54", "Worldwide Express Plus");
    ("59", "2nd Day Air A.M.");
    ("65", "Worldwide Saver");
    ("70", "Worldwide Express Sprint");
    ("71", "Worldwide Express Sprint Plus");
    ("96", "Worldwide Express Freight");
    ("M2", "First Class Mail");
    ("M3", "Priority Mail");
    ("M4", "Expedited Mail Innovations");
    ("M5", "Priority Mail Innovations");
    ("M6", "Economy Mail Innovations") ].

(** The string-keyed members of [Object.prototype], which every object
    literal inherits; none of them is [null] or [undefined]. *)
Definition OBJECT_PROTOTYPE_MEMBERS : list string :=
  [ "constructor";
    "__defineGetter__";
    "__defineSetter__";
    "hasOwnProperty";
    "__lookupGetter__";
    "__lookupSetter__";
    "isPrototypeOf";
    "propertyIsEnumerable";
    "toString";
    "valueOf";
    "__proto__";
    "toLocaleString" ].

Definition isObjectPrototypeMember (k : string) : bool :=
  existsb (String.eqb k) OBJECT_PROTOTYPE_MEMBERS.

(** [UPS_SERVICE_NAMES[code]]: an own property, else an inherited member,
    else [undefined]. *)
Definition readServiceNames (code : string) : option ServiceName :=
  match enumLookup code UPS_SERVICE_NAMES with
  | Some n => Some (NameString n)
  | None => if isObjectPrototypeMember code then Some (NameInherited code) else None
  end.

(** [UPS_SERVICE_NAMES[code] ?? code] *)
Definition upsServiceName (code : string) : ServiceName :=
  orElse (readServiceNames code) (NameString code).

(** The callback of [ratedShipments.map]: one quote per rated shipment. *)
Definition toRateQuote (carrierId : string) (s : UpsRatedShipment) : RateQuote :=
  let svc := Service s in
  let code := orElse (andThen svc Service_Code) "UNKNOWN" in
  let total := andThen (TotalCharges s) MonetaryValue in
  let currency := orElse (andThen (TotalCharges s) CurrencyCode) "USD" in
  let transitDays := andThen (GuaranteedDelivery s) BusinessDaysInTransit in
  let totalCharge :=
    match total with
    | Some t => if String.eqb t "" then Finite 0 else parseFloat t
    | None => Finite 0
    end in
  let transitDaysNum :=
    match transitDays with
    | Some t => if String.eqb t "" then None else Some (parseInt10 t)
    | None => None
    end in
  {| carrier := carrierId;
     serviceCode := code;
     serviceName :=
       match andThen svc Service_Name with
       | Some n => NameString n
       | None => upsServiceName code
       end;
     totalCharge := if Number_isNaN totalCharge then Finite 0 else totalCharge;
     currencyCode := orElse (Some currency) "USD";
     transitDays :=
       match transitDaysNum with
       | Some n => if negb (Number_isNaN n) then Some n else None
       | None => None
       end;
     carrierServiceId := Some code |}.

(** [status?.Code && status.Code !== "1"] *)
Definition failingStatus (status : option UpsResponseStatus) : option string :=
  match andThen status Status_Code with
  | Some c => if (negb (String.eqb c "") && negb (String.eqb c "1"))%bool then Some c else None
  | None => None
  end.

Definition parseUpsRateResponse (body : JsValue) (carrierId : string) : Completion RateResponse :=
  match UpsRateResponseSchema body with
  | ParseFailure iss =>
      Throw (ThrownCIE
        {| code := MALFORMED_RESPONSE;
           message := "UPS rate response invalid — " ++ formatIssues iss;
           statusCode := None;
           carrierCode := None;
           context := Some [("body", body); ("issues", flatten iss)];
           cause := None |})
  | ParseSuccess parsed =>
      match RateResponse_ parsed with
      | None =>
          Throw (ThrownCIE
            {| code := MALFORMED_RESPONSE;
               message := "UPS rate response missing RateResponse";
               statusCode := None;
               carrierCode := None;
               context := Some [("body", body)];
               cause := None |})
      | Some rateResponse =>
          let status := andThen (Response rateResponse) ResponseStatus in
          match failingStatus status with
          | Some c =>
              Throw (ThrownCIE
                {| code := CARRIER_ERROR;
                   message := orElse (andThen status Status_Description) ("UPS error: " ++ c);
                   statusCode := None;
                   carrierCode := Some c;
                   context := Some [("body", body)];
                   cause := None |})
          | None =>
              let ratedShipments := orElse (RatedShipment rateResponse) [] in
              Return {| quotes := map (toRateQuote carrierId) ratedShipments;
                        requestId := None |}
          end
      end
  end.

(** [tryGetCarrierErrorCode]: [body.response?.errors?.[0]?.code] when it is
    a string. *)
Definition tryGetCarrierErrorCode (body : JsValue) : option string :=
  if (truthy body && typeofObject body)%bool
  then
    let response := getProp body "response" in
    match optProp (optProp (optProp response "errors") "0") "code" with
    | JStr c => Some c
    | _ => None
    end
  else None.
(** ** Transport interface ([src/http-client.ts]) and effects *)

Record HttpRequest : Type := {
  method : string;
  url : string;
  headers : list (string * string);
  body : option string;
  timeoutMs : option Z
}.

Record HttpResponse : Type := {
  status : Z;
  responseHeaders : list (string * string);
  responseBody : JsValue
}.

(** A call to the transport resolves with a response or rejects. *)
Inductive HttpOutcome : Type :=
| Responds (r : HttpResponse)
| Rejects (t : Thrown).

(** A transport: its answer to a request, given the requests it has already
    been handed. *)
Definition HttpClient : Type := list HttpRequest -> HttpRequest -> HttpOutcome.

(** [src/config.ts] *)
Record UpsConfig : Type := {
  clientId : string;
  clientSecret : string;
  apiBaseUrl : string;
  oauthTokenUrl : string;
  requestTimeoutMs : Z;
  oauthTimeoutMs : Z;
  oauthRefreshBufferSeconds : Z
}.

Record CachedToken : Type := {
  accessToken : string;
  expiresAtMs : Z
}.

(** The mutable state a call can observe or change: the [cached] field of the
    OAuth client, the reading of the clock, and the requests issued so far. *)
Record World : Type := {
  cached : option CachedToken;
  clock : Z;
  requests : list HttpRequest
}.

Definition M (A : Type) : Type := World -> Completion A * World.

Definition ret {A : Type} (a : A) : M A := fun w => (Return a, w).

Definition throw {A : Type} (t : Thrown) : M A := fun w => (Throw t, w).

Definition bind {A B : Type} (m : M A) (k : A -> M B) : M B :=
  fun w => match m w with
           | (Return a, w') => k a w'
           | (Throw t, w') => (Throw t, w')
           end.

(** [try { m } catch (err) { h err }] *)
Definition tryCatch {A : Type} (m : M A) (h : Thrown -> M A) : M A :=
  fun w => match m w with
           | (Return a, w') => (Return a, w')
           | (Throw t, w') => h t w'
           end.

Declare Scope js_scope.
Delimit Scope js_scope with js.
Notation "x <- m ;; k" := (bind m (fun x => k))
  (at level 100, m at next level, right associativity) : js_scope.
Notation "m ;; k" := (bind m (fun _ => k))
  (at level 100, right associativity) : js_scope.

Definition throwError {A : Type} (e : CarrierIntegrationError) : M A := throw (ThrownCIE e).

Definition liftCompletion {A : Type} (c : Completion A) : M A := fun w => (c, w).

(** [Date.now()] *)
Definition Date_now : M Z := fun w => (Return (clock w), w).

Definition getCached : M (option CachedToken) := fun w => (Return (cached w), w).

Definition setCached (c : option CachedToken) : M unit :=
  fun w => (Return tt, {| cached := c; clock := clock w; requests := requests w |}).

Definition logRequest (req : HttpRequest) (w : World) : World :=
  {| cached := cached w; clock := clock w; requests := (requests w ++ [req])%list |}.

(** [await http.request(req)] *)
Definition request (http : HttpClient) (req : HttpRequest) : M HttpResponse :=
  fun w => match http (requests w) req with
           | Responds r => (Return r, logRequest req w)
           | Rejects t => (Throw t, logRequest req w)
           end.

(** ** Token cache ([src/auth/ups-oauth.ts]) *)

Record UpsOAuthTokenResponse : Type := {
  access_token : string;
  expires_in : Z;
  token_type : option string
}.

Definition isInteger (q : Q) : bool := (Zpos (Qden (Qred q)) =? 1).

(** [z.number().int().positive().optional().default(3600)] *)
Definition z_expires_in : Schema Z :=
  fun v => match v with
           | JUndefined => ParseSuccess 3600
           | JNum NaN => ParseFailure [invalidType "number" v]
           | JNum (Infinity neg) =>
               ParseFailure (issue "Expected integer, received float"
                             :: if neg then [issue "Number must be greater than 0"] else [])
           | JNum (Finite q) =>
               match isInteger q, 0 <? Qnum q with
               | true, true => ParseSuccess (Qnum (Qred q))
               | true, false => ParseFailure [issue "Number must be greater than 0"]
               | false, true => ParseFailure [issue "Expected integer, received float"]
               | false, false => ParseFailure [issue "Expected integer, received float";
                                               issue "Number must be greater than 0"]
               end
           | _ => ParseFailure [invalidType "number" v]
           end.

Definition UpsOAuthTokenResponseSchema : Schema UpsOAuthTokenResponse :=
  z_object (fun f =>
    (Build_UpsOAuthTokenResponse
       <$> field f "access_token" (z_string_min1 "access_token is required")
       <*> field f "expires_in" z_expires_in
       <*> field f "token_type" (z_optional z_string))%zod).

Record TokenResult : Type := {
  result_accessToken : string;
  expiresInSeconds : Z
}.

(** [err instanceof Error ? err.message : fallback] *)
Definition errorMessageOr (fallback : string) (r : RawThrown) : string :=
  match r with
  | JsError _ m => m
  | JsOther _ => fallback
  end.

(** [err instanceof Error && (err.name === "AbortError" || message.includes("abort"))] *)
Definition isTimeout (r : RawThrown) : bool :=
  match r with
  | JsError n m => (String.eqb n "AbortError" || includes "abort" m)%bool
  | JsOther _ => false
  end.

Section UpsOAuthClient.

Variable config : UpsConfig.
Variable http : HttpClient.

(** [Buffer.from(s, "utf-8").toString("base64")] *)
Variable base64 : string -> string.

Definition refreshBufferMs : Z := oauthRefreshBufferSeconds config * 1000.

Definition tokenRequest : HttpRequest :=
  {| method := "POST";
     url := oauthTokenUrl config;
     headers := [("Content-Type", "application/x-www-form-urlencoded");
                 ("Authorization", "Basic " ++ base64 (clientId config ++ ":" ++ clientSecret config));
                 ("x-merchant-id", clientId config)];
     body := Some "grant_type=client_credentials";
     timeoutMs := Some (oauthTimeoutMs config) |}.

Definition requestToken : M TokenResult :=
  let url := oauthTokenUrl config in
  tryCatch
    (res <- request http tokenRequest ;;
     if status res =? 401 then
       throwError {| code := AUTH_FAILED;
                     message := "UPS OAuth: invalid client credentials (401)";
                     statusCode := Some 401;
                     carrierCode := None;
                     context := Some [("url", JStr url)];
                     cause := None |}
     else if status res =? 429 then
       throwError {| code := RATE_LIMITED;
                     message := "UPS OAuth: rate limited (429)";
                     statusCode := Some 429;
                     carrierCode := None;
                     context := Some [("url", JStr url)];
                     cause := None |}
     else if ((status res <? 200) || (status res >=? 300))%bool then
       throwError {| code := AUTH_FAILED;
                     message := "UPS OAuth failed: HTTP " ++ stringOfZ (status res);
                     statusCode := Some (status res);
                     carrierCode := None;
                     context := Some [("url", JStr url); ("body", responseBody res)];
                     cause := None |}
     else
       match UpsOAuthTokenResponseSchema (responseBody res) with
       | ParseFailure iss =>
           throwError {| code := MALFORMED_RESPONSE;
                         message := "UPS OAuth: invalid response — " ++ formatIssues iss;
                         statusCode := Some (status res);
                         carrierCode := None;
                         context := Some [("body", responseBody res); ("issues", flatten iss)];
                         cause := None |}
       | ParseSuccess data =>
           ret {| result_accessToken := access_token data;
                  expiresInSeconds := expires_in data |}
       end)%js
    (fun err =>
       match err with
       | ThrownCIE _ => throw err
       | ThrownRaw r =>
           let message := errorMessageOr "Unknown error during OAuth" r in
           throwError {| code := if isTimeout r then TIMEOUT else NETWORK_ERROR;
                         message := "UPS OAuth: " ++ message;
                         statusCode := None;
                         carrierCode := None;
                         context := Some [("url", JStr url)];
                         cause := Some r |}
       end).

(** Lines 53-58 of [getValidToken]: acquire, cache, return. *)
Definition acquireAndCache (now : Z) : M string :=
  (result <- requestToken ;;
   setCached (Some {| accessToken := result_accessToken result;
                      expiresAtMs := now + expiresInSeconds result * 1000 |}) ;;
   ret (result_accessToken result))%js.

Definition getValidToken : M string :=
  (now <- Date_now ;;
   c <- getCached ;;
   match c with
   | Some tok =>
       if expiresAtMs tok - refreshBufferMs >? now then ret (accessToken tok)
       else acquireAndCache now
   | None => acquireAndCache now
   end)%js.

Definition clearCache : M unit := setCached None.

End UpsOAuthClient.

(** ** Carrier client ([src/carriers/ups/ups-rate.ts], [ups-carrier.ts]) *)

Inductive CarrierOperation : Type :=
| rate
| label
| tracking
| address_validation.

Definition CarrierOperation_eqb (a b : CarrierOperation) : bool :=
  match a, b with
  | rate, rate | label, label | tracking, tracking
  | address_validation, address_validation => true
  | _, _ => false
  end.

Definition operationName (op : CarrierOperation) : string :=
  match op with
  | rate => "rate"
  | label => "label"
  | tracking => "tracking"
  | address_validation => "address_validation"
  end.

Inductive OperationInput : Type :=
| RateInput (input : RateRequest)
| OtherInput (op : CarrierOperation) (input : JsValue).

Inductive OperationResult : Type :=
| RateResult (result : RateResponse)
| OtherResult (op : CarrierOperation) (result : JsValue).

Definition inputOperation (i : OperationInput) : CarrierOperation :=
  match i with
  | RateInput _ => rate
  | OtherInput op _ => op
  end.

Record CarrierIntegration : Type := {
  carrierId : string;
  supportedOperations : list CarrierOperation;
  execute : OperationInput -> M OperationResult
}.

Definition supports (op : CarrierOperation) (c : CarrierIntegration) : bool :=
  existsb (CarrierOperation_eqb op) (supportedOperations c).

Section UpsCarrier.

Variable config : UpsConfig.
Variable http : HttpClient.
Variable base64 : string -> string.
Variable numberToString : JsNumber -> string.

(** [JSON.stringify] of the request body. *)
Variable JSON_stringify : UpsRateRequest -> string.

Section UpsRateClient.

(** [options.getToken] *)
Variable getToken : M string.

Definition rateRequest (token : string) (req : RateRequest) : HttpRequest :=
  let url := apiBaseUrl config ++ UPS_RATING_PATH in
  let query := "version=" ++ UPS_RATE_VERSION in
  {| method := "POST";
     url := url ++ "?" ++ query;
     headers := [("Content-Type", "application/json");
                 ("Authorization", "Bearer " ++ token)];
     body := Some (JSON_stringify (buildUpsRateRequest numberToString req));
     timeoutMs := Some (requestTimeoutMs config) |}.

Definition UpsRateClient_getRates (req : RateRequest) : M RateResponse :=
  (token <- getToken ;;
   res <- request http (rateRequest token req) ;;
   if status res =? 401 then
     throwError {| code := AUTH_TOKEN_EXPIRED;
                   message := "UPS rate request unauthorized (401); token may have expired";
                   statusCode := Some 401;
                   carrierCode := None;
                   context := None;
                   cause := None |}
   else if status res =? 429 then
     throwError {| code := RATE_LIMITED;
                   message := "UPS rate limited (429)";
                   statusCode := Some 429;
                   carrierCode := None;
                   context := None;
                   cause := None |}
   else if status res >=? 400 then
     throwError {| code := CARRIER_ERROR;
                   message := "UPS rate request failed: HTTP " ++ stringOfZ (status res);
                   statusCode := Some (status res);
                   carrierCode := tryGetCarrierErrorCode (responseBody res);
                   context := Some [("body", responseBody res)];
                   cause := None |}
   else liftCompletion (parseUpsRateResponse (responseBody res) "ups"))%js.

End UpsRateClient.

Definition SUPPORTED_OPERATIONS : list CarrierOperation := [rate].

Definition UpsCarrier_execute (input : OperationInput) : M OperationResult :=
  match input with
  | RateInput req =>
      (result <- UpsRateClient_getRates (getValidToken config http base64) req ;;
       ret (RateResult result))%js
  | OtherInput op _ =>
      throwError {| code := VALIDATION_ERROR;
                    message := "UPS does not support operation: " ++ operationName op;
                    statusCode := None;
                    carrierCode := None;
                    context := Some [("carrierId", JStr "ups");
                                     ("supported",
                                      JArr (map (fun o => JStr (operationName o))
                                                SUPPORTED_OPERATIONS))];
                    cause := None |}
  end.

Definition UpsCarrier : CarrierIntegration :=
  {| carrierId := "ups";
     supportedOperations := SUPPORTED_OPERATIONS;
     execute := UpsCarrier_execute |}.

End UpsCarrier.

(** ** Dispatcher ([src/service.ts]) *)

(** [Map.prototype.set]: a repeated key keeps its place and takes the new
    value. *)
Fixpoint mapSet {V : Type} (k : string) (v : V) (m : list (string * V)) : list (string * V) :=
  match m with
  | [] => [(k, v)]
  | (k', v') :: rest => if String.eqb k k' then (k', v) :: rest else (k', v') :: mapSet k v rest
  end.

Fixpoint mapGet {V : Type} (k : string) (m : list (string * V)) : option V :=
  match m with
  | [] => None
  | (k', v) :: rest => if String.eqb k k' then Some v else mapGet k rest
  end.

Record CarrierIntegrationService : Type := {
  carriers : list (string * CarrierIntegration)
}.

(** [new CarrierIntegrationService({ carriers })] *)
Definition newCarrierIntegrationService (cs : list CarrierIntegration) : CarrierIntegrationService :=
  {| carriers := fold_left (fun m c => mapSet (carrierId c) c m) cs [] |}.

Definition formatZodError (iss : list ZodIssue) : string := formatIssues iss.

Definition getRates (svc : CarrierIntegrationService) (carrierId : string) (request : JsValue)
  : M RateResponse :=
  match mapGet carrierId (carriers svc) with
  | None =>
      throwError {| code := VALIDATION_ERROR;
                    message := "Unknown carrier: " ++ carrierId;
                    statusCode := None;
                    carrierCode := None;
                    context := Some [("availableCarriers",
                                      JArr (map (fun e => JStr (fst e)) (carriers svc)))];
                    cause := None |}
  | Some carrier =>
      if negb (supports rate carrier) then
        throwError {| code := VALIDATION_ERROR;
                      message := "Carrier " ++ carrierId ++ " does not support rate shopping";
                      statusCode := None;
                      carrierCode := None;
                      context := None;
                      cause := None |}
      else
        match RateRequestSchema request with
        | ParseFailure iss =>
            throwError {| code := VALIDATION_ERROR;
                          message := "Invalid rate request: " ++ formatZodError iss;
                          statusCode := None;
                          carrierCode := None;
                          context := Some [("errors", flatten iss)];
                          cause := None |}
        | ParseSuccess validatedRequest =>
            tryCatch
              (result <- execute carrier (RateInput validatedRequest) ;;
               match result with
               | RateResult r => ret r
               | OtherResult _ _ =>
                   throwError {| code := UNKNOWN;
                                 message := "Unexpected result type from carrier";
                                 statusCode := None;
                                 carrierCode := None;
                                 context := None;
                                 cause := None |}
               end)%js
              (fun err =>
                 match err with
                 | ThrownCIE _ => throw err
                 | ThrownRaw r =>
                     throwError {| code := UNKNOWN;
                                   message := errorMessageOr "Carrier request failed" r;
                                   statusCode := None;
                                   carrierCode := None;
                                   context := None;
                                   cause := Some r |}
                 end)
        end
  end.

Definition getCarriersWithRates (svc : CarrierIntegrationService) : list string :=
  map (fun e => carrierId (snd e)) (filter (fun e => supports rate (snd e)) (carriers svc)).
(** ** Vocabulary of the specification *)

(** The cached token is usable at [now]: it exists and its expiry minus the
    refresh buffer is strictly in the future. *)
Definition stillValid (config : UpsConfig) (c : option CachedToken) (now : Z) : bool :=
  match c with
  | Some tok => now <? expiresAtMs tok - refreshBufferMs config
  | None => false
  end.

(** The environment advances the clock between two calls. *)
Definition atTime (now : Z) (w : World) : World :=
  {| cached := cached w; clock := now; requests := requests w |}.

Definition monetaryValueOf (s : UpsRatedShipment) : option string :=
  andThen (TotalCharges s) MonetaryValue.

Definition currencyCodeOf (s : UpsRatedShipment) : option string :=
  andThen (TotalCharges s) CurrencyCode.

Definition transitDaysOf (s : UpsRatedShipment) : option string :=
  andThen (GuaranteedDelivery s) BusinessDaysInTransit.

Definition serviceCodeOf (s : UpsRatedShipment) : option string :=
  andThen (Service s) Service_Code.

(** The string carries a minus sign in front of its literal. *)
Definition leadingMinus (s : string) : bool := fst (scanSign (trimStart s)).

Definition isNonNegative (n : JsNumber) : bool :=
  match n with
  | NaN => false
  | Infinity neg => negb neg
  | Finite q => 0 <=? Qnum q
  end.

Definition isIntegerNumber (n : JsNumber) : bool :=
  match n with
  | Finite q => isInteger q
  | _ => false
  end.

Definition isInfinite (n : JsNumber) : bool :=
  match n with
  | Infinity _ => true
  | _ => false
  end.

Definition dimensionsAllOrNone (p : Package) : bool :=
  match length p, width p, height p with
  | Some _, Some _, Some _ => true
  | None, None, None => true
  | _, _, _ => false
  end.

Definition optionalNumber (o : option JsNumber) : JsValue :=
  match o with
  | Some n => JNum n
  | None => JUndefined
  end.

Definition presentArePositive (o : option JsNumber) : bool :=
  match o with
  | Some n => isPositive n
  | None => true
  end.

(** A package as a caller writes it, with any of the three dimensions
    given or left out, and the package the validation makes of it. *)
Definition packageJson (wt : JsNumber) (l w h : option JsNumber) : JsValue :=
  JObj [("weight", JNum wt);
        ("length", optionalNumber l);
        ("width", optionalNumber w);
        ("height", optionalNumber h)].

Definition packageData (wt : JsNumber) (l w h : option JsNumber) : Package :=
  {| weight := wt; weightUnit := LBS;
     length := l; width := w; height := h;
     dimensionUnit := IN |}.

(** *** Well-formed numeric strings and what they denote *)

Fixpoint allDigits (s : string) : bool :=
  match s with
  | EmptyString => true
  | String c rest => (isDigit c && allDigits rest)%bool
  end.

Definition nonEmpty (s : string) : bool :=
  match s with
  | EmptyString => false
  | _ => true
  end.

(** Positional value of a digit string: the digit [d] with [k] digits to its
    right weighs [d * 10 ^ k]. *)
Fixpoint digitsDenote (s : string) : Z :=
  match s with
  | EmptyString => 0
  | String c rest => digitValue c * 10 ^ Z.of_nat (String.length rest) + digitsDenote rest
  end.

(** Text before the first ["."], and the text after it when there is one. *)
Fixpoint splitAtDot (s : string) : string * option string :=
  match s with
  | EmptyString => (EmptyString, None)
  | String c rest =>
      if Ascii.eqb c "." then (EmptyString, Some rest)
      else let (a, b) := splitAtDot rest in (String c a, b)
  end.

(** Plain decimal notation: digits, optionally a point and more digits. *)
Definition isDecimalString (s : string) : bool :=
  let (ip, fp) := splitAtDot s in
  (nonEmpty ip && allDigits ip
   && match fp with
      | Some f => allDigits f
      | None => true
      end)%bool.

Definition decimalStringValue (s : string) : Q :=
  let (ip, fp) := splitAtDot s in
  (inject_Z (digitsDenote ip)
   + match fp with
     | Some f => inject_Z (digitsDenote f) / inject_Z (10 ^ Z.of_nat (String.length f))
     | None => 0
     end)%Q.

Definition isIntegerString (s : string) : bool := (nonEmpty s && allDigits s)%bool.

Definition integerStringValue (s : string) : Q := inject_Z (digitsDenote s).

(** *** Synthetic success bodies *)

(** A quote as a carrier would word it: every field a string. *)
Record SyntheticQuote : Type := {
  sq_serviceCode : string;
  sq_serviceName : string;
  sq_totalCharge : string;
  sq_currencyCode : string;
  sq_transitDays : string
}.

Definition wellFormedQuote (q : SyntheticQuote) : bool :=
  (isDecimalString (sq_totalCharge q) && isIntegerString (sq_transitDays q))%bool.

Definition syntheticRatedShipment (q : SyntheticQuote) : JsValue :=
  JObj [("Service", JObj [("Code", JStr (sq_serviceCode q));
                          ("Name", JStr (sq_serviceName q))]);
        ("TotalCharges", JObj [("MonetaryValue", JStr (sq_totalCharge q));
                               ("CurrencyCode", JStr (sq_currencyCode q))]);
        ("GuaranteedDelivery", JObj [("BusinessDaysInTransit", JStr (sq_transitDays q))])].

(** Modelled from the spec: [buildSyntheticSuccessBody] is named by the
    round-trip property only and has no source; it is the success body with
    the status sentinel ["1"] and one rated-shipment element per quote, in
    order. *)
Definition buildSyntheticSuccessBody (qs : list SyntheticQuote) : JsValue :=
  JObj [("RateResponse",
         JObj [("Response",
                JObj [("ResponseStatus",
                       JObj [("Code", JStr "1"); ("Description", JStr "Success")])]);
               ("RatedShipment", JArr (map syntheticRatedShipment qs))])].

(** The quote that matches a synthetic quote field for field. *)
Definition matchingQuote (carrierId : string) (q : SyntheticQuote) : RateQuote :=
  {| carrier := carrierId;
     serviceCode := sq_serviceCode q;
     serviceName := NameString (sq_serviceName q);
     totalCharge := toNumber (decimalStringValue (sq_totalCharge q));
     currencyCode := sq_currencyCode q;
     transitDays := Some (toNumber (integerStringValue (sq_transitDays q)));
     carrierServiceId := Some (sq_serviceCode q) |}.

(** The rated shipment the schema reads out of [syntheticRatedShipment q]. *)
Definition syntheticShipmentData (q : SyntheticQuote) : UpsRatedShipment :=
  {| Service := Some {| Service_Code := Some (sq_serviceCode q);
                        Service_Name := Some (sq_serviceName q) |};
     TotalCharges := Some {| MonetaryValue := Some (sq_totalCharge q);
                             CurrencyCode := Some (sq_currencyCode q) |};
     GuaranteedDelivery := Some {| BusinessDaysInTransit := Some (sq_transitDays q) |} |}.
(** ** Sample inputs *)

Definition shipmentWithoutNumbers : UpsRatedShipment :=
  {| Service := Some {| Service_Code := Some "03"; Service_Name := None |};
     TotalCharges := Some {| MonetaryValue := Some "n/a"; CurrencyCode := None |};
     GuaranteedDelivery := Some {| BusinessDaysInTransit := Some "" |} |}.

Definition bodyWithoutServiceCode : JsValue :=
  JObj [("RateResponse",
         JObj [("RatedShipment",
                JArr [JObj [("TotalCharges", JObj [("MonetaryValue", JStr "12.50")])]])])].

Definition bodyWithoutRatedShipment : JsValue := JObj [("RateResponse", JObj [])].

Definition bodyWithNegativeNumbers : JsValue :=
  JObj [("RateResponse",
         JObj [("Response", JObj [("ResponseStatus", JObj [("Code", JStr "1")])]);
               ("RatedShipment",
                JArr [JObj [("Service", JObj [("Code", JStr "03")]);
                            ("TotalCharges", JObj [("MonetaryValue", JStr "-5.00");
                                                   ("CurrencyCode", JStr "USD")]);
                            ("GuaranteedDelivery",
                             JObj [("BusinessDaysInTransit", JStr "-3")])]])])].

Definition quoteWithNegativeNumbers : RateQuote :=
  {| carrier := "ups";
     serviceCode := "03";
     serviceName := NameString "Ground";
     totalCharge := Finite (-5 # 1);
     currencyCode := "USD";
     transitDays := Some (Finite (-3 # 1));
     carrierServiceId := Some "03" |}.

Definition packageWithLengthOnly : JsValue :=
  JObj [("weight", JNum (Finite 5)); ("length", JNum (Finite 10))].

Definition sampleAddress (line city postal : string) : JsValue :=
  JObj [("line1", JStr line); ("city", JStr city); ("postalCode", JStr postal);
        ("countryCode", JStr "US")].

Definition SAMPLE_RATE_REQUEST : JsValue :=
  JObj [("origin",
         JObj [("line1", JStr "123 Origin St"); ("city", JStr "Atlanta");
               ("stateProvinceCode", JStr "GA"); ("postalCode", JStr "30301");
               ("countryCode", JStr "US")]);
        ("destination",
         JObj [("line1", JStr "456 Dest Ave"); ("city", JStr "New York");
               ("stateProvinceCode", JStr "NY"); ("postalCode", JStr "10001");
               ("countryCode", JStr "US")]);
        ("packages",
         JArr [JObj [("weight", JNum (Finite 5)); ("weightUnit", JStr "LBS");
                     ("length", JNum (Finite 10)); ("width", JNum (Finite 8));
                     ("height", JNum (Finite 6)); ("dimensionUnit", JStr "IN")]])].

Definition requestWithLengthOnly : JsValue :=
  JObj [("origin", sampleAddress "123 Origin St" "Atlanta" "30301");
        ("destination", sampleAddress "456 Dest Ave" "New York" "10001");
        ("packages", JArr [packageWithLengthOnly])].

Definition sampleConfig : UpsConfig :=
  {| clientId := "test_client";
     clientSecret := "test_secret";
     apiBaseUrl := "https://api.example.com";
     oauthTokenUrl := "https://auth.example.com/token";
     requestTimeoutMs := 15000;
     oauthTimeoutMs := 10000;
     oauthRefreshBufferSeconds := 60 |}.

Definition UPS_OAUTH_SUCCESS : JsValue :=
  JObj [("access_token", JStr "test_token_abc123");
        ("token_type", JStr "Bearer");
        ("expires_in", JNum (Finite 3600))].

Definition UPS_RATE_SUCCESS : JsValue :=
  JObj [("RateResponse",
         JObj [("Response",
                JObj [("ResponseStatus",
                       JObj [("Code", JStr "1"); ("Description", JStr "Success")])]);
               ("RatedShipment",
                JArr [JObj [("Service", JObj [("Code", JStr "03"); ("Name", JStr "Ground")]);
                            ("TotalCharges", JObj [("MonetaryValue", JStr "12.50");
                                                   ("CurrencyCode", JStr "USD")]);
                            ("GuaranteedDelivery",
                             JObj [("BusinessDaysInTransit", JStr "3")])];
                      JObj [("Service", JObj [("Code", JStr "07");
                                              ("Name", JStr "Worldwide Express")]);
                            ("TotalCharges", JObj [("MonetaryValue", JStr "24.99");
                                                   ("CurrencyCode", JStr "USD")]);
                            ("GuaranteedDelivery",
                             JObj [("BusinessDaysInTransit", JStr "1")])]])])].

Definition okResponse (b : JsValue) : HttpOutcome :=
  Responds {| status := 200; responseHeaders := []; responseBody := b |}.

(** A transport that answers the token endpoint with a token and anything
    else with the rate success body. *)
Definition happyTransport : HttpClient :=
  fun _ req =>
    if String.eqb (url req) (oauthTokenUrl sampleConfig)
    then okResponse UPS_OAUTH_SUCCESS
    else okResponse UPS_RATE_SUCCESS.

Definition noText {A : Type} (_ : A) : string := "".

Definition sampleUps (http : HttpClient) : CarrierIntegration :=
  UpsCarrier sampleConfig http noText noText noText.

Definition emptyWorld : World := {| cached := None; clock := 1000000; requests := [] |}.

Definition quoteGround : RateQuote :=
  {| carrier := "ups"; serviceCode := "03"; serviceName := NameString "Ground";
     totalCharge := Finite (25 # 2); currencyCode := "USD";
     transitDays := Some (Finite (3 # 1)); carrierServiceId := Some "03" |}.

Definition quoteExpress : RateQuote :=
  {| carrier := "ups"; serviceCode := "07"; serviceName := NameString "Worldwide Express";
     totalCharge := Finite (2499 # 100); currencyCode := "USD";
     transitDays := Some (Finite (1 # 1)); carrierServiceId := Some "07" |}.

Definition sampleRateRequest : RateRequest :=
  {| origin := {| line1 := "123 Origin St"; line2 := None; line3 := None;
                  city := "Atlanta"; stateProvinceCode := Some "GA";
                  postalCode := "30301"; countryCode := "US" |};
     destination := {| line1 := "456 Dest Ave"; line2 := None; line3 := None;
                       city := "New York"; stateProvinceCode := Some "NY";
                       postalCode := "10001"; countryCode := "US" |};
     packages := [{| weight := Finite 5; weightUnit := LBS;
                     length := Some (Finite 10); width := Some (Finite 8);
                     height := Some (Finite 6); dimensionUnit := IN |}];
     req_serviceCode := None |}.

Definition invalidRequestBody : JsValue :=
  JObj [("response", JObj [("errors", JArr [JObj [("code", JStr "INVALID_REQUEST")]])])].

(** A transport that answers every request with HTTP 400 and a carrier
    error code. *)
Definition badRequestTransport : HttpClient :=
  fun _ _ => Responds {| status := 400; responseHeaders := [];
                         responseBody := invalidRequestBody |}.

Definition policyError : CarrierIntegrationError :=
  {| code := VALIDATION_ERROR;
     message := "egress blocked by policy";
     statusCode := None; carrierCode := None; context := None; cause := None |}.

(** A transport wrapper that rejects with a structured error of its own. *)
Definition guardedTransport : HttpClient := fun _ _ => Rejects (ThrownCIE policyError).

(** A transport whose call is aborted by the timeout signal. *)
Definition abortingTransport : HttpClient :=
  fun _ _ => Rejects (ThrownRaw (JsError "AbortError" "This operation was aborted")).

Definition syntheticGround : SyntheticQuote :=
  {| sq_serviceCode := "03"; sq_serviceName := "Ground"; sq_totalCharge := "12.50";
     sq_currencyCode := "USD"; sq_transitDays := "3" |}.

Definition syntheticExpress : SyntheticQuote :=
  {| sq_serviceCode := "07"; sq_serviceName := "Worldwide Express"; sq_totalCharge := "24.99";
     sq_currencyCode := "USD"; sq_transitDays := "1" |}.

Definition hangUp : JsValue := JObj [("message", JStr "socket hang up")].

(** A transport that answers the token endpoint and rejects the rate call
    with a plain object, as promise-based libraries do. *)
Definition hangingTransport : HttpClient :=
  fun _ req =>
    if String.eqb (url req) (oauthTokenUrl sampleConfig)
    then okResponse UPS_OAUTH_SUCCESS
    else Rejects (ThrownRaw (JsOther hangUp)).

(** A transport that answers the token endpoint and fails the rate call with
    an [Error]. *)
Definition failingTransport : HttpClient :=
  fun _ req =>
    if String.eqb (url req) (oauthTokenUrl sampleConfig)
    then okResponse UPS_OAUTH_SUCCESS
    else Rejects (ThrownRaw (JsError "Error" "fetch failed: timeout")).

(** ** Proof automation *)

(** Unfold the operations of the monad. *)
Ltac unfold_js :=
  unfold bind, ret, throw, throwError, tryCatch, liftCompletion, request,
    Date_now, getCached, setCached in *.

(** ** Schemas of the normalized response ([src/domain.ts]) *)

(** [z.number()] *)
Definition z_number : Schema JsNumber :=
  fun v => match v with
           | JNum NaN => ParseFailure [invalidType "number" v]
           | JNum n => ParseSuccess n
           | _ => ParseFailure [invalidType "number" v]
           end.

Definition RateQuoteSchema : Schema RateQuote :=
  z_object (fun f =>
    ((fun carrier serviceCode serviceName =>
        Build_RateQuote carrier serviceCode (NameString serviceName))
       <$> field f "carrier" z_string
       <*> field f "serviceCode" z_string
       <*> field f "serviceName" z_string
       <*> field f "totalCharge" z_number
       <*> field f "currencyCode" z_string
       <*> field f "transitDays" (z_optional z_number)
       <*> field f "carrierServiceId" (z_optional z_string))%zod).

Definition RateResponseSchema : Schema RateResponse :=
  z_object (fun f =>
    (Build_RateResponse
       <$> field f "quotes" (z_array RateQuoteSchema)
       <*> field f "requestId" (z_optional z_string))%zod).

(** ** Stub transport ([src/test-utils/stub-http.ts]) *)

Record StubResponse : Type := {
  stub_status : Z;
  stub_body : JsValue;
  stub_headers : option (list (string * string))
}.

(** What the stub keeps of a request. *)
Record RecordedRequest : Type := {
  recorded_method : string;
  recorded_url : string;
  recorded_body : option string
}.

(** The three variables closed over by the client. [nextReject] holds any
    value; [null] and [undefined] stand for no pending rejection. *)
Record StubState : Type := {
  stubRequests : list RecordedRequest;
  responseQueue : list StubResponse;
  nextReject : Thrown
}.

Definition noReject : Thrown := ThrownRaw (JsOther JNull).

(** [err != null] *)
Definition thrownNotNull (t : Thrown) : bool :=
  match t with
  | ThrownRaw (JsOther v) => negb (isNullish v)
  | _ => true
  end.

(** [createStubHttpClient()] *)
Definition createStubHttpClient : StubState :=
  {| stubRequests := []; responseQueue := []; nextReject := noReject |}.

Definition NO_STUB_MESSAGE : string :=
  "StubHttpClient: no stubbed response set. Use stubNext() or stubNextReject() before the request.".

(** [client.request(options)] *)
Definition stubRequest (options : HttpRequest) (st : StubState) : HttpOutcome * StubState :=
  let requests' := (stubRequests st ++ [{| recorded_method := method options;
                                           recorded_url := url options;
                                           recorded_body := body options |}])%list in
  if thrownNotNull (nextReject st) then
    (Rejects (nextReject st),
     {| stubRequests := requests'; responseQueue := responseQueue st; nextReject := noReject |})
  else
    match responseQueue st with
    | nextResponse :: rest =>
        (Responds {| status := stub_status nextResponse;
                     responseHeaders := orElse (stub_headers nextResponse) [];
                     responseBody := stub_body nextResponse |},
         {| stubRequests := requests'; responseQueue := rest; nextReject := nextReject st |})
    | [] =>
        (Rejects (ThrownRaw (JsError "Error" NO_STUB_MESSAGE)),
         {| stubRequests := requests'; responseQueue := []; nextReject := nextReject st |})
    end.

(** [client.stubNext(res)] *)
Definition stubNext (res : StubResponse) (st : StubState) : StubState :=
  {| stubRequests := stubRequests st;
     responseQueue := (responseQueue st ++ [res])%list;
     nextReject := noReject |}.

(** [client.stubNextReject(err)] *)
Definition stubNextReject (err : Thrown) (st : StubState) : StubState :=
  {| stubRequests := stubRequests st; responseQueue := []; nextReject := err |}.

(** [client.getRequests()] *)
Definition getRequests (st : StubState) : list RecordedRequest := stubRequests st.

(** [client.reset()] *)
Definition reset (st : StubState) : StubState :=
  {| stubRequests := []; responseQueue := []; nextReject := noReject |}.

(** Several requests in a row: the outcomes, first to last, and the state
    they leave. *)
Fixpoint stubRequests_run (reqs : list HttpRequest) (st : StubState)
  : list HttpOutcome * StubState :=
  match reqs with
  | [] => ([], st)
  | r :: rest =>
      let (o, st1) := stubRequest r st in
      let (os, st2) := stubRequests_run rest st1 in
      (o :: os, st2)
  end.

Definition stubResponseOutcome (r : StubResponse) : HttpOutcome :=
  Responds {| status := stub_status r;
              responseHeaders := orElse (stub_headers r) [];
              responseBody := stub_body r |}.

Definition recordOf (r : HttpRequest) : RecordedRequest :=
  {| recorded_method := method r; recorded_url := url r; recorded_body := body r |}.
(** ** Vocabulary for the properties beyond the specification *)

Definition optionalWithin (n : nat) (o : option string) : bool :=
  match o with
  | Some s => (String.length s <=? n)%nat
  | None => true
  end.

(** What [AddressSchema] asks of an address. *)
Definition addressWellFormed (a : Address) : bool :=
  (nonEmpty (line1 a) && nonEmpty (city a) && nonEmpty (postalCode a)
   && (String.length (countryCode a) =? 2)%nat
   && optionalWithin 10 (stateProvinceCode a))%bool.

(** What [PackageSchema] asks of a package. *)
Definition packageWellFormed (p : Package) : bool :=
  (isPositive (weight p) && presentArePositive (length p)
   && presentArePositive (width p) && presentArePositive (height p))%bool.

(** What [RateRequestSchema] asks of a request. *)
Definition rateRequestWellFormed (r : RateRequest) : bool :=
  (addressWellFormed (origin r) && addressWellFormed (destination r)
   && match packages r with
      | [] => false
      | _ => true
      end
   && forallb packageWellFormed (packages r)
   && optionalWithin 10 (req_serviceCode r))%bool.

Definition optionalString (o : option string) : JsValue :=
  match o with
  | Some s => JStr s
  | None => JUndefined
  end.

(** A typed request written out as the plain object a caller passes. *)
Definition addressToJson (a : Address) : JsValue :=
  JObj [("line1", JStr (line1 a));
        ("line2", optionalString (line2 a));
        ("line3", optionalString (line3 a));
        ("city", JStr (city a));
        ("stateProvinceCode", optionalString (stateProvinceCode a));
        ("postalCode", JStr (postalCode a));
        ("countryCode", JStr (countryCode a))].

Definition packageToJson (p : Package) : JsValue :=
  JObj [("weight", JNum (weight p));
        ("weightUnit", JStr match weightUnit p with
                            | LBS => "LBS"
                            | KGS => "KGS"
                            end);
        ("length", optionalNumber (length p));
        ("width", optionalNumber (width p));
        ("height", optionalNumber (height p));
        ("dimensionUnit", JStr match dimensionUnit p with
                               | IN => "IN"
                               | CM => "CM"
                               end)].

Definition rateRequestToJson (r : RateRequest) : JsValue :=
  JObj [("origin", addressToJson (origin r));
        ("destination", addressToJson (destination r));
        ("packages", JArr (map packageToJson (packages r)));
        ("serviceCode", optionalString (req_serviceCode r))].

(** A quote and a response as the plain objects handed to the caller, for
    the quotes whose every field is data: a [serviceName] inherited from
    [Object.prototype] is a function or the prototype object, which [JsValue]
    does not hold. *)
Definition isNameString (n : ServiceName) : bool :=
  match n with
  | NameString _ => true
  | NameInherited _ => false
  end.

Definition rateQuoteToJson (q : RateQuote) : option JsValue :=
  match serviceName q with
  | NameString name =>
      Some (JObj [("carrier", JStr (carrier q));
                  ("serviceCode", JStr (serviceCode q));
                  ("serviceName", JStr name);
                  ("totalCharge", JNum (totalCharge q));
                  ("currencyCode", JStr (currencyCode q));
                  ("transitDays", optionalNumber (transitDays q));
                  ("carrierServiceId", optionalString (carrierServiceId q))])
  | NameInherited _ => None
  end.

Fixpoint allSome {A : Type} (l : list (option A)) : option (list A) :=
  match l with
  | [] => Some []
  | Some a :: rest => option_map (cons a) (allSome rest)
  | None :: _ => None
  end.

Definition rateResponseToJson (r : RateResponse) : option JsValue :=
  match allSome (map rateQuoteToJson (quotes r)) with
  | Some items => Some (JObj [("quotes", JArr items);
                              ("requestId", optionalString (requestId r))])
  | None => None
  end.

(** ** More sample inputs *)

Definition stubTokenResponse : StubResponse :=
  {| stub_status := 200; stub_body := UPS_OAUTH_SUCCESS; stub_headers := None |}.

Definition stubRateResponse : StubResponse :=
  {| stub_status := 200; stub_body := UPS_RATE_SUCCESS; stub_headers := None |}.

Definition fetchFailed : Thrown := ThrownRaw (JsError "Error" "fetch failed: timeout").

Definition addressWithGap : Address :=
  {| line1 := "123 Origin St"; line2 := None; line3 := Some "Dock 4";
     city := "Atlanta"; stateProvinceCode := None; postalCode := "30301";
     countryCode := "US" |}.

Definition requestWithEmptyServiceCode : RateRequest :=
  {| origin := addressWithGap; destination := addressWithGap;
     packages := [packageData (Finite 5) None None None];
     req_serviceCode := Some "" |}.

Definition bodyWithCarrierError : JsValue :=
  JObj [("RateResponse",
         JObj [("Response",
                JObj [("ResponseStatus",
                       JObj [("Code", JStr "0"); ("Description", JStr "Invalid shipper")])]);
               ("RatedShipment",
                JArr [JObj [("Service", JObj [("Code", JStr "03")])]])])].

(** The cached token, when there is one, is not the empty string. *)
Definition cacheWellFormed (w : World) : bool :=
  match cached w with
  | Some tok => nonEmpty (accessToken tok)
  | None => true
  end.

Definition staleWorld : World :=
  {| cached := Some {| accessToken := "old_token"; expiresAtMs := 1000000 |};
     clock := 1000000;
     requests := [] |}.

Definition freshWorld : World :=
  {| cached := Some {| accessToken := "cached_token"; expiresAtMs := 5000000 |};
     clock := 1000000;
     requests := [] |}.

(** A transport that answers every request with HTTP 401. *)
Definition unauthorizedTransport : HttpClient :=
  fun _ _ => Responds {| status := 401; responseHeaders := []; responseBody := JObj [] |}.

(** * Properties *)

(** ** The numeric scanners on sample inputs *)

Example parseFloat_12_50 : parseFloat "12.50" = Finite (25 # 2).
Proof. vm_compute. reflexivity. Qed.
Example parseFloat_neg : parseFloat "  -5.00 USD" = Finite (-5 # 1).
Proof. vm_compute. reflexivity. Qed.
Example parseFloat_exp : parseFloat ".5e+1x" = Finite (5 # 1).
Proof. vm_compute. reflexivity. Qed.
Example parseFloat_exp2 : parseFloat "1.e-2" = Finite (1 # 100).
Proof. vm_compute. reflexivity. Qed.
Example parseFloat_bad : parseFloat "abc" = NaN /\ parseFloat "." = NaN /\ parseFloat "-" = NaN /\ parseFloat "" = NaN.
Proof. vm_compute. repeat split. Qed.
Example parseFloat_inf : parseFloat "-Infinity" = Infinity true /\ parseFloat "1e400" = Infinity false.
Proof. vm_compute. repeat split. Qed.
Example parseInt_ex : parseInt10 " 3 days" = Finite (3 # 1) /\ parseInt10 "-3" = Finite (-3 # 1) /\ parseInt10 "x" = NaN /\ parseInt10 "3.7" = Finite (3#1).
Proof. vm_compute. repeat split. Qed.

(** ** Rated shipments to quotes *)

Lemma Number_isNaN_false (n : JsNumber) : Number_isNaN n = false <-> n <> NaN.
Proof. destruct n; simpl; split; congruence. Qed.

Lemma toNumber_not_NaN (q : Q) : toNumber q <> NaN.
Proof. unfold toNumber. destruct (Qle_bool _ _); discriminate. Qed.

(** The charge of a quote: 0 unless the monetary value is a non-empty string
    that [parseFloat] reads as a number. *)
Lemma totalCharge_cases (carrierId : string) (s : UpsRatedShipment) :
  totalCharge (toRateQuote carrierId s) =
    match monetaryValueOf s with
    | Some t =>
        if String.eqb t "" then Finite 0
        else if Number_isNaN (parseFloat t) then Finite 0 else parseFloat t
    | None => Finite 0
    end.
Proof.
  unfold toRateQuote, monetaryValueOf; simpl.
  destruct (andThen (TotalCharges s) MonetaryValue) as [t|]; [|reflexivity].
  destruct (String.eqb t ""); reflexivity.
Qed.

Lemma transitDays_cases (carrierId : string) (s : UpsRatedShipment) :
  transitDays (toRateQuote carrierId s) =
    match transitDaysOf s with
    | Some t =>
        if String.eqb t "" then None
        else if Number_isNaN (parseInt10 t) then None else Some (parseInt10 t)
    | None => None
    end.
Proof.
  unfold toRateQuote, transitDaysOf; simpl.
  destruct (andThen (GuaranteedDelivery s) BusinessDaysInTransit) as [t|]; [|reflexivity].
  destruct (String.eqb t ""); [reflexivity|].
  destruct (Number_isNaN (parseInt10 t)); reflexivity.
Qed.

Lemma totalCharge_not_NaN (carrierId : string) (s : UpsRatedShipment) :
  totalCharge (toRateQuote carrierId s) <> NaN.
Proof.
  rewrite totalCharge_cases.
  destruct (monetaryValueOf s) as [t|]; [|discriminate].
  destruct (String.eqb t ""); [discriminate|].
  destruct (Number_isNaN (parseFloat t)) eqn:E; [discriminate|].
  now apply Number_isNaN_false.
Qed.

Lemma transitDays_not_NaN (carrierId : string) (s : UpsRatedShipment) (n : JsNumber) :
  transitDays (toRateQuote carrierId s) = Some n -> n <> NaN.
Proof.
  rewrite transitDays_cases.
  destruct (transitDaysOf s) as [t|]; [|discriminate].
  destruct (String.eqb t ""); [discriminate|].
  destruct (Number_isNaN (parseInt10 t)) eqn:E; [discriminate|].
  intros [= <-]. now apply Number_isNaN_false.
Qed.

(** Every quote of a successful parse is the image of a rated shipment that
    the schema accepted, in the order of the body. *)
Lemma parseUpsRateResponse_Return (body : JsValue) (carrierId : string) (r : RateResponse) :
  parseUpsRateResponse body carrierId = Return r ->
  exists parsed inner,
    UpsRateResponseSchema body = ParseSuccess parsed /\
    RateResponse_ parsed = Some inner /\
    failingStatus (andThen (Response inner) ResponseStatus) = None /\
    r = {| quotes := map (toRateQuote carrierId) (orElse (RatedShipment inner) []);
           requestId := None |}.
Proof.
  unfold parseUpsRateResponse.
  destruct (UpsRateResponseSchema body) as [parsed|iss] eqn:P; [|discriminate].
  destruct (RateResponse_ parsed) as [inner|] eqn:I; [|discriminate].
  destruct (failingStatus _) eqn:F; [discriminate|].
  intros [= <-]. exists parsed, inner. repeat split; assumption.
Qed.

Lemma parse_quote_inv (body : JsValue) (carrierId : string) (r : RateResponse) (q : RateQuote) :
  parseUpsRateResponse body carrierId = Return r ->
  In q (quotes r) ->
  exists s, q = toRateQuote carrierId s.
Proof.
  intros H Hin. apply parseUpsRateResponse_Return in H.
  destruct H as (parsed & inner & _ & _ & _ & ->). simpl in Hin.
  apply in_map_iff in Hin. destruct Hin as (s & <- & _). now exists s.
Qed.

(** C2. For every rated shipment accepted by the response schema: a
    MonetaryValue that is absent, empty or not readable as a decimal number
    gives a totalCharge of exactly 0, and the totalCharge is never NaN; a
    BusinessDaysInTransit that is absent, empty or not readable as an integer
    leaves transitDays out of the quote; an absent CurrencyCode gives the
    currency code "USD". *)
Theorem numeric_safety (carrierId : string) (s : UpsRatedShipment) :
  let q := toRateQuote carrierId s in
  totalCharge q <> NaN /\
  ((monetaryValueOf s = None \/ monetaryValueOf s = Some "" \/
    exists t, monetaryValueOf s = Some t /\ parseFloat t = NaN) ->
   totalCharge q = Finite 0) /\
  ((transitDaysOf s = None \/ transitDaysOf s = Some "" \/
    exists t, transitDaysOf s = Some t /\ parseInt10 t = NaN) ->
   transitDays q = None) /\
  (currencyCodeOf s = None -> currencyCode q = "USD").
Proof.
  cbv zeta. split; [apply totalCharge_not_NaN|]. split; [|split].
  - rewrite totalCharge_cases.
    intros [-> | [-> | (t & -> & E)]]; try reflexivity.
    rewrite E. simpl. now destruct (String.eqb t "").
  - rewrite transitDays_cases.
    intros [-> | [-> | (t & -> & E)]]; try reflexivity.
    rewrite E. simpl. now destruct (String.eqb t "").
  - unfold currencyCodeOf, toRateQuote. simpl. now intros ->.
Qed.

Lemma numeric_safety_witness :
  totalCharge (toRateQuote "ups" shipmentWithoutNumbers) = Finite 0 /\
  transitDays (toRateQuote "ups" shipmentWithoutNumbers) = None /\
  currencyCode (toRateQuote "ups" shipmentWithoutNumbers) = "USD".
Proof.
  destruct (numeric_safety "ups" shipmentWithoutNumbers) as (_ & Hc & Ht & Hu).
  split; [|split].
  - apply Hc. right. right. exists "n/a". split; reflexivity.
  - apply Ht. right. left. reflexivity.
  - apply Hu. reflexivity.
Defined.

(** C10. In every quote produced by the parse step the carrierServiceId is
    present and equals the serviceCode, which is the sentinel "UNKNOWN" when
    the carrier sent no service code. *)
Theorem carrierServiceId_is_serviceCode
  (body : JsValue) (carrierId : string) (r : RateResponse) (q : RateQuote) :
  parseUpsRateResponse body carrierId = Return r ->
  In q (quotes r) ->
  carrierServiceId q = Some (serviceCode q) /\
  exists s, q = toRateQuote carrierId s /\
            (serviceCodeOf s = None -> serviceCode q = "UNKNOWN" /\
                                       carrierServiceId q = Some "UNKNOWN").
Proof.
  intros H Hin. destruct (parse_quote_inv _ _ _ _ H Hin) as (s & ->).
  split; [reflexivity|]. exists s. split; [reflexivity|].
  unfold serviceCodeOf, toRateQuote. simpl. intros ->. split; reflexivity.
Qed.

Lemma carrierServiceId_is_serviceCode_witness :
  exists r q,
    parseUpsRateResponse bodyWithoutServiceCode "ups" = Return r /\
    quotes r = [q] /\
    carrierServiceId q = Some (serviceCode q) /\
    serviceCode q = "UNKNOWN".
Proof.
  remember (toRateQuote "ups"
              {| Service := None;
                 TotalCharges := Some {| MonetaryValue := Some "12.50"; CurrencyCode := None |};
                 GuaranteedDelivery := None |}) as q eqn:Eq.
  exists {| quotes := [q]; requestId := None |}, q.
  assert (H : parseUpsRateResponse bodyWithoutServiceCode "ups"
              = Return {| quotes := [q]; requestId := None |})
    by (subst q; reflexivity).
  split; [exact H|]. split; [reflexivity|].
  destruct (carrierServiceId_is_serviceCode _ _ _ q H (or_introl eq_refl)) as (Hid & _).
  split; [exact Hid|]. subst q. reflexivity.
Defined.

(** ** A response without rated shipments *)

Lemma field_RatedShipment_empty (rr : list (string * JsValue)) :
  getField "RatedShipment" rr = JUndefined \/ getField "RatedShipment" rr = JArr [] ->
  exists l, field rr "RatedShipment" (z_optional (z_array UpsRatedShipmentSchema)) = ParseSuccess l
            /\ orElse l [] = [].
Proof.
  unfold field. intros [-> | ->].
  - exists None. split; reflexivity.
  - exists (Some []). split; reflexivity.
Qed.

(** C9. A body that is an object holding a RateResponse object whose status
    part is accepted by the schema and carries no failing status code, and
    whose RatedShipment field is missing or an empty array, parses to a
    RateResponse with no quotes; it is not a MALFORMED_RESPONSE. *)
Theorem missing_rated_shipments_is_empty
  (fields rr : list (string * JsValue)) (carrierId : string) (resp : option UpsResponse) :
  getField "RateResponse" fields = JObj rr ->
  field rr "Response" (z_optional UpsResponseSchema) = ParseSuccess resp ->
  failingStatus (andThen resp ResponseStatus) = None ->
  getField "RatedShipment" rr = JUndefined \/ getField "RatedShipment" rr = JArr [] ->
  parseUpsRateResponse (JObj fields) carrierId = Return {| quotes := []; requestId := None |}.
Proof.
  intros HRR HResp HStatus HShip.
  destruct (field_RatedShipment_empty rr HShip) as (l & Hl & Hempty).
  unfold parseUpsRateResponse, UpsRateResponseSchema, z_object.
  unfold field at 1. rewrite HRR. simpl.
  rewrite HResp, Hl. simpl. rewrite HStatus, Hempty. reflexivity.
Qed.

Lemma missing_rated_shipments_is_empty_witness :
  parseUpsRateResponse bodyWithoutRatedShipment "ups"
  = Return {| quotes := []; requestId := None |}.
Proof.
  apply (missing_rated_shipments_is_empty [("RateResponse", JObj [])] [] "ups" None).
  - reflexivity.
  - reflexivity.
  - reflexivity.
  - left. reflexivity.
Defined.

(** ** The numeric scanners *)

Lemma isDigit_range (c : ascii) : isDigit c = true -> 0 <= digitValue c <= 9.
Proof.
  unfold isDigit, digitValue. intros H.
  apply andb_true_iff in H. destruct H as [H1 H2].
  apply N.leb_le in H1, H2. lia.
Qed.

Lemma spanDigits_spec (s : string) :
  allDigits (fst (spanDigits s)) = true /\
  s = (fst (spanDigits s) ++ snd (spanDigits s))%string.
Proof.
  induction s as [|c s IH]; simpl; [auto|].
  destruct (isDigit c) eqn:D; simpl; [|auto].
  destruct (spanDigits s) as [ds r]. simpl in *.
  destruct IH as [IH1 IH2]. rewrite D, IH1. split; [reflexivity|]. now rewrite <- IH2.
Qed.

Lemma digitsValueFrom_nonneg (s : string) (acc : Z) :
  allDigits s = true -> 0 <= acc -> 0 <= digitsValueFrom acc s.
Proof.
  revert acc. induction s as [|c s IH]; simpl; intros acc H Hacc; [assumption|].
  apply andb_true_iff in H. destruct H as [Hc Hs].
  apply IH; [assumption|]. pose proof (isDigit_range c Hc). lia.
Qed.

Lemma allDigits_app (a b : string) :
  allDigits (a ++ b) = (allDigits a && allDigits b)%bool.
Proof.
  induction a as [|c a IH]; simpl; [reflexivity|].
  rewrite IH. now rewrite andb_assoc.
Qed.

Lemma Qnum_nonneg (q : Q) : (0 <= q)%Q <-> 0 <= Qnum q.
Proof. unfold Qle. simpl. lia. Qed.

Lemma toNumber_nonneg (q : Q) : (0 <= q)%Q -> isNonNegative (toNumber q) = true.
Proof.
  intros H. unfold toNumber.
  destruct (Qle_bool _ _); simpl.
  - unfold Qnegative. apply Qnum_nonneg in H.
    destruct (Qnum q <? 0) eqn:E; [apply Z.ltb_lt in E; lia | reflexivity].
  - apply Z.leb_le. apply Qnum_nonneg. now rewrite Qred_correct.
Qed.

Lemma literalValue_nonneg (ip fp : string) (e : Z) :
  allDigits ip = true -> allDigits fp = true -> (0 <= literalValue ip fp e)%Q.
Proof.
  intros Hi Hf. unfold literalValue.
  apply Qmult_le_0_compat.
  - apply Qnum_nonneg. simpl. apply digitsValueFrom_nonneg; [|lia].
    rewrite allDigits_app, Hi, Hf. reflexivity.
  - apply Qpower_0_le. apply Qnum_nonneg. simpl. lia.
Qed.

(** Whatever [scanUnsignedLiteral] returns is made of digits. *)
Lemma scanUnsignedLiteral_digits (s ip fp : string) (e : Z) :
  scanUnsignedLiteral s = Some (LitDecimal ip fp e) ->
  allDigits ip = true /\ allDigits fp = true.
Proof.
  unfold scanUnsignedLiteral.
  destruct (prefix "Infinity" s); [discriminate|].
  pose proof (spanDigits_spec s) as [Hs _].
  destruct (spanDigits s) as [ip' r1]. simpl in Hs.
  destruct r1 as [|c r2].
  - destruct ip'; [discriminate|]. intros [= <- <- _]. auto.
  - destruct (Ascii.eqb c ".") eqn:Ec.
    + apply Ascii.eqb_eq in Ec. subst c.
      pose proof (spanDigits_spec r2) as [Hf _].
      destruct (spanDigits r2) as [fp' r3]. simpl in Hf.
      destruct ip'; [destruct fp'; [discriminate|]|]; intros [= <- <- _]; auto.
    + assert (Hc : c <> "."%char) by (intros ->; now rewrite Ascii.eqb_refl in Ec).
      destruct c as [[] [] [] [] [] [] [] []];
        try (exfalso; apply Hc; reflexivity);
        (destruct ip'; [discriminate|]; intros [= <- <- _]; auto).
Qed.

(** Without a leading minus sign [parseFloat] yields NaN or a non-negative
    number. *)
Lemma parseFloat_sign (s : string) :
  leadingMinus s = false ->
  parseFloat s = NaN \/ isNonNegative (parseFloat s) = true.
Proof.
  unfold leadingMinus, parseFloat.
  destruct (scanSign (trimStart s)) as [neg r]. simpl. intros ->.
  destruct (scanUnsignedLiteral r) as [[|ip fp e]|] eqn:E; [right; reflexivity| |left; reflexivity].
  right. apply scanUnsignedLiteral_digits in E. destruct E as [Hi Hf].
  apply toNumber_nonneg. simpl. now apply literalValue_nonneg.
Qed.

Lemma isInteger_inject_Z (z : Z) : isInteger (inject_Z z) = true.
Proof.
  unfold isInteger. rewrite Qred_identity; [reflexivity|].
  simpl. apply Z.gcd_1_r.
Qed.

Lemma isInteger_Qeq (p q : Q) : (p == q)%Q -> isInteger p = isInteger q.
Proof. intros H. unfold isInteger. now rewrite (Qred_complete _ _ H). Qed.

Lemma isInteger_Qred (q : Q) : isInteger (Qred q) = isInteger q.
Proof. apply isInteger_Qeq. apply Qred_correct. Qed.

Lemma toNumber_integer (z : Z) :
  isIntegerNumber (toNumber (inject_Z z)) = true \/ isInfinite (toNumber (inject_Z z)) = true.
Proof.
  unfold toNumber. destruct (Qle_bool _ _); cbn [isIntegerNumber isInfinite]; [now right|left].
  rewrite isInteger_Qred. apply isInteger_inject_Z.
Qed.

(** [parseInt(s, 10)] yields NaN, an infinity or an integer; without a
    leading minus sign the number is not negative. *)
Lemma parseInt10_cases (s : string) :
  parseInt10 s = NaN \/
  ((isIntegerNumber (parseInt10 s) = true \/ isInfinite (parseInt10 s) = true) /\
   (leadingMinus s = false -> isNonNegative (parseInt10 s) = true)).
Proof.
  unfold leadingMinus, parseInt10.
  destruct (scanSign (trimStart s)) as [neg r]. simpl.
  pose proof (spanDigits_spec r) as [Hd _].
  destruct (spanDigits r) as [ds r']. simpl in Hd.
  destruct ds as [|c ds]; [now left|right]. split.
  - destruct neg; simpl.
    + change (- inject_Z (digitsValue (String c ds)))%Q
        with (inject_Z (- digitsValue (String c ds))).
      apply toNumber_integer.
    + apply toNumber_integer.
  - intros ->. simpl. apply toNumber_nonneg. apply Qnum_nonneg. simpl.
    apply digitsValueFrom_nonneg; [assumption|lia].
Qed.

(** [parseFloat] yields NaN exactly when no decimal literal starts the
    string, after white space and an optional sign; [parseInt(_, 10)] exactly
    when no digit does. *)
Lemma parseFloat_NaN_iff (s : string) :
  parseFloat s = NaN <-> scanUnsignedLiteral (snd (scanSign (trimStart s))) = None.
Proof.
  unfold parseFloat. destruct (scanSign (trimStart s)) as [neg r]. simpl.
  destruct (scanUnsignedLiteral r) as [[|ip fp e]|]; split; try discriminate; try reflexivity.
  intros H. now apply toNumber_not_NaN in H.
Qed.

Lemma parseInt10_NaN_iff (s : string) :
  parseInt10 s = NaN <-> fst (spanDigits (snd (scanSign (trimStart s)))) = EmptyString.
Proof.
  unfold parseInt10. destruct (scanSign (trimStart s)) as [neg r]. simpl.
  destruct (spanDigits r) as [[|c ds] r']; simpl; split; try discriminate; try reflexivity.
  intros H. now apply toNumber_not_NaN in H.
Qed.

(** ** Sign and shape of the numbers in a quote *)

(** C4 (counterexample). A negative MonetaryValue and a negative
    BusinessDaysInTransit reach the
    quote as they are: the parse step produces a quote whose totalCharge and
    transitDays are both below zero. *)
Lemma negative_numbers_reach_quotes :
  parseUpsRateResponse bodyWithNegativeNumbers "ups"
  = Return {| quotes := [quoteWithNegativeNumbers]; requestId := None |}
  /\ isNonNegative (totalCharge quoteWithNegativeNumbers) = false
  /\ transitDays quoteWithNegativeNumbers = Some (Finite (-3 # 1))
  /\ isNonNegative (Finite (-3 # 1)) = false.
Proof. vm_compute. repeat split. Qed.

Lemma totalCharge_sign (carrierId : string) (s : UpsRatedShipment) :
  (forall t, monetaryValueOf s = Some t -> leadingMinus t = false) ->
  isNonNegative (totalCharge (toRateQuote carrierId s)) = true.
Proof.
  intros H. rewrite totalCharge_cases.
  destruct (monetaryValueOf s) as [t|]; [|reflexivity].
  destruct (String.eqb t ""); [reflexivity|].
  destruct (parseFloat_sign t (H t eq_refl)) as [-> | Hn]; [reflexivity|].
  destruct (Number_isNaN (parseFloat t)); [reflexivity|assumption].
Qed.

Lemma transitDays_shape (carrierId : string) (s : UpsRatedShipment) (n : JsNumber) :
  transitDays (toRateQuote carrierId s) = Some n ->
  (isIntegerNumber n = true \/ isInfinite n = true) /\
  (forall t, transitDaysOf s = Some t -> leadingMinus t = false -> isNonNegative n = true).
Proof.
  rewrite transitDays_cases.
  destruct (transitDaysOf s) as [t|]; [|discriminate].
  destruct (String.eqb t ""); [discriminate|].
  destruct (parseInt10_cases t) as [-> | [Hshape Hsign]]; [discriminate|].
  destruct (Number_isNaN (parseInt10 t)); [discriminate|].
  intros [= <-]. split; [assumption|]. intros t' [= <-]. exact Hsign.
Qed.

(** C4 (amended). Every quote produced by the parse step has a totalCharge
    that is a number other than NaN and, when transitDays is present, a
    transitDays that is an integer (an infinity for a digit string beyond the
    range of a number) other than NaN. Neither is non-negative in general:
    the quote is the image of a rated shipment, and for every rated shipment
    it is the image of, each of the two numbers is non-negative when the
    carrier's string for it has no leading minus sign; so the totalCharge
    is non-negative whenever MonetaryValue is absent. *)
Theorem quote_numbers_shape
  (body : JsValue) (carrierId : string) (r : RateResponse) (q : RateQuote) :
  parseUpsRateResponse body carrierId = Return r ->
  In q (quotes r) ->
  totalCharge q <> NaN /\
  (forall n, transitDays q = Some n ->
             n <> NaN /\ (isIntegerNumber n = true \/ isInfinite n = true)) /\
  (exists s, q = toRateQuote carrierId s) /\
  (forall s,
    q = toRateQuote carrierId s ->
    ((forall t, monetaryValueOf s = Some t -> leadingMinus t = false) ->
     isNonNegative (totalCharge q) = true) /\
    (forall t n, transitDaysOf s = Some t -> leadingMinus t = false ->
                 transitDays q = Some n -> isNonNegative n = true)).
Proof.
  intros H Hin. destruct (parse_quote_inv _ _ _ _ H Hin) as (s & ->).
  split; [apply totalCharge_not_NaN|]. split; [|split].
  - intros n Hn. split; [now apply transitDays_not_NaN in Hn|].
    now apply transitDays_shape in Hn.
  - exists s. reflexivity.
  - intros s' ->. split; [apply totalCharge_sign|].
    intros t n Ht Hm Hn. apply transitDays_shape in Hn. destruct Hn as [_ Hn]. eauto.
Qed.

Lemma quote_numbers_shape_witness :
  totalCharge quoteWithNegativeNumbers <> NaN /\
  (forall n, transitDays quoteWithNegativeNumbers = Some n ->
             n <> NaN /\ (isIntegerNumber n = true \/ isInfinite n = true)).
Proof.
  assert (Hparse : parseUpsRateResponse bodyWithNegativeNumbers "ups"
                   = Return {| quotes := [quoteWithNegativeNumbers]; requestId := None |})
    by (vm_compute; reflexivity).
  destruct (quote_numbers_shape _ _ _ quoteWithNegativeNumbers Hparse (or_introl eq_refl))
    as (Hc & Ht & _).
  split; assumption.
Defined.

(** ** Package dimensions *)

(** C3 (counterexample). The domain validation accepts a package that gives a
    length and neither
    width nor height, and so does the dispatcher: the request reaches the
    carrier and is answered with quotes. *)
Lemma partial_dimensions_accepted :
  PackageSchema packageWithLengthOnly
  = ParseSuccess {| weight := Finite 5; weightUnit := LBS;
                    length := Some (Finite 10); width := None; height := None;
                    dimensionUnit := IN |}
  /\ dimensionsAllOrNone {| weight := Finite 5; weightUnit := LBS;
                            length := Some (Finite 10); width := None; height := None;
                            dimensionUnit := IN |} = false
  /\ fst (getRates (newCarrierIntegrationService [sampleUps happyTransport])
            "ups" requestWithLengthOnly emptyWorld)
     = Return {| quotes := [quoteGround; quoteExpress]; requestId := None |}.
Proof. vm_compute. repeat split. Qed.

Lemma z_number_positive_accepts (msg : string) (n : JsNumber) :
  isPositive n = true -> z_number_positive msg (JNum n) = ParseSuccess n.
Proof. destruct n; simpl; intros H; try discriminate; now rewrite ?H. Qed.

Lemma optional_positive_accepts (msg : string) (o : option JsNumber) :
  presentArePositive o = true ->
  z_optional (z_number_positive msg) (optionalNumber o) = ParseSuccess o.
Proof.
  destruct o as [n|]; intros H; [|reflexivity].
  unfold z_optional, optionalNumber. simpl in H.
  now rewrite (z_number_positive_accepts msg n H).
Qed.

(** C3 (amended). Length, width and height are optional one by one: for any
    choice of which of the three are given, as positive numbers, the domain
    validation accepts the package and keeps exactly the given ones, and so
    does the validation of a rate request that holds it; the wire mapper
    writes a Dimensions block exactly when all three are present. *)
Theorem package_dimensions_optional (numberToString : JsNumber -> string) :
  (forall (wt : JsNumber) (l w h : option JsNumber),
     isPositive wt = true ->
     presentArePositive l = true ->
     presentArePositive w = true ->
     presentArePositive h = true ->
     PackageSchema (packageJson wt l w h) = ParseSuccess (packageData wt l w h) /\
     forall (o d : JsValue) (from to : Address),
       AddressSchema o = ParseSuccess from ->
       AddressSchema d = ParseSuccess to ->
       RateRequestSchema (JObj [("origin", o); ("destination", d);
                                ("packages", JArr [packageJson wt l w h])])
       = ParseSuccess {| origin := from; destination := to;
                         packages := [packageData wt l w h];
                         req_serviceCode := None |}) /\
  (forall pkg : Package,
     Dimensions (toUpsPackage numberToString pkg) <> None <->
     (length pkg <> None /\ width pkg <> None /\ height pkg <> None)).
Proof.
  split.
  - intros wt l w h Hwt Hl Hw Hh.
    assert (Hpkg : PackageSchema (packageJson wt l w h) = ParseSuccess (packageData wt l w h)).
    { unfold PackageSchema, packageJson, z_object, field.
      cbn [getField String.eqb Ascii.eqb Bool.eqb].
      rewrite (z_number_positive_accepts _ wt Hwt).
      rewrite !optional_positive_accepts by assumption.
      reflexivity. }
    split; [exact Hpkg|].
    intros o d from to Ho Hd.
    unfold RateRequestSchema, z_object, field.
    cbn [getField String.eqb Ascii.eqb Bool.eqb z_array_min1 parseItems].
    rewrite Ho, Hd, Hpkg. reflexivity.
  - intros pkg. unfold toUpsPackage. simpl.
    destruct (length pkg), (width pkg), (height pkg); split;
      try (intros H; repeat split; congruence);
      try (intros (H1 & H2 & H3); congruence).
Qed.

Lemma package_dimensions_optional_witness :
  PackageSchema (packageJson (Finite 5) (Some (Finite 10)) None None)
  = ParseSuccess (packageData (Finite 5) (Some (Finite 10)) None None).
Proof.
  apply (proj1 (package_dimensions_optional noText) (Finite 5) (Some (Finite 10)) None None);
    reflexivity.
Defined.

(** ** Carrier client: status of the rate call *)

Lemma tryGetCarrierErrorCode_shape (c : string) (more : list (string * JsValue))
  (rest : list JsValue) :
  tryGetCarrierErrorCode
    (JObj [("response", JObj [("errors", JArr (JObj (("code", JStr c) :: more) :: rest))])])
  = Some c.
Proof. reflexivity. Qed.

Lemma tryGetCarrierErrorCode_absent (fields : list (string * JsValue)) :
  getField "response" fields = JUndefined ->
  tryGetCarrierErrorCode (JObj fields) = None.
Proof. unfold tryGetCarrierErrorCode. simpl. now intros ->. Qed.

(** The completion of [getRates] once the token is at hand and the
    transport has answered. *)
Lemma UpsRateClient_getRates_responds
  (config : UpsConfig) (http : HttpClient) (numberToString : JsNumber -> string)
  (JSON_stringify : UpsRateRequest -> string) (getToken : M string)
  (req : RateRequest) (w w1 : World) (token : string) (res : HttpResponse) :
  getToken w = (Return token, w1) ->
  http (requests w1) (rateRequest config numberToString JSON_stringify token req) = Responds res ->
  UpsRateClient_getRates config http numberToString JSON_stringify getToken req w
  = ((if status res =? 401 then
        Throw (ThrownCIE
          {| code := AUTH_TOKEN_EXPIRED;
             message := "UPS rate request unauthorized (401); token may have expired";
             statusCode := Some 401; carrierCode := None; context := None; cause := None |})
      else if status res =? 429 then
        Throw (ThrownCIE
          {| code := RATE_LIMITED; message := "UPS rate limited (429)";
             statusCode := Some 429; carrierCode := None; context := None; cause := None |})
      else if status res >=? 400 then
        Throw (ThrownCIE
          {| code := CARRIER_ERROR;
             message := "UPS rate request failed: HTTP " ++ stringOfZ (status res);
             statusCode := Some (status res);
             carrierCode := tryGetCarrierErrorCode (responseBody res);
             context := Some [("body", responseBody res)]; cause := None |})
      else parseUpsRateResponse (responseBody res) "ups"),
     logRequest (rateRequest config numberToString JSON_stringify token req) w1).
Proof.
  intros Htok Hres. unfold UpsRateClient_getRates. unfold_js.
  rewrite Htok, Hres.
  destruct (status res =? 401); [reflexivity|].
  destruct (status res =? 429); [reflexivity|].
  destruct (status res >=? 400); reflexivity.
Qed.

(** C5. For every response of the transport to the rate call: status 401
    fails with AUTH_TOKEN_EXPIRED and httpStatus 401; status 429 fails with
    RATE_LIMITED; any other status from 400 up fails with CARRIER_ERROR
    carrying the status and the carrier error code read from a body of shape
    {response:{errors:[{code}]}}, none when the body has no such part; any
    status below 400 is handed to the parse step of the wire mapper. *)
Theorem rate_call_status_mapping
  (config : UpsConfig) (http : HttpClient) (numberToString : JsNumber -> string)
  (JSON_stringify : UpsRateRequest -> string) (getToken : M string)
  (req : RateRequest) (w w1 : World) (token : string) (res : HttpResponse) :
  getToken w = (Return token, w1) ->
  http (requests w1) (rateRequest config numberToString JSON_stringify token req) = Responds res ->
  let out := fst (UpsRateClient_getRates config http numberToString JSON_stringify getToken req w) in
  (status res = 401 ->
   exists e, out = Throw (ThrownCIE e) /\ code e = AUTH_TOKEN_EXPIRED /\ statusCode e = Some 401) /\
  (status res = 429 ->
   exists e, out = Throw (ThrownCIE e) /\ code e = RATE_LIMITED /\ statusCode e = Some 429) /\
  (status res >= 400 -> status res <> 401 -> status res <> 429 ->
   exists e, out = Throw (ThrownCIE e) /\ code e = CARRIER_ERROR /\
             statusCode e = Some (status res) /\
             carrierCode e = tryGetCarrierErrorCode (responseBody res)) /\
  (status res < 400 -> out = parseUpsRateResponse (responseBody res) "ups") /\
  (forall c more rest,
     tryGetCarrierErrorCode
       (JObj [("response", JObj [("errors", JArr (JObj (("code", JStr c) :: more) :: rest))])])
     = Some c) /\
  (forall fields, getField "response" fields = JUndefined ->
                  tryGetCarrierErrorCode (JObj fields) = None).
Proof.
  intros Htok Hres out. subst out.
  rewrite (UpsRateClient_getRates_responds _ _ _ _ _ _ _ _ _ _ Htok Hres). simpl.
  split; [|split; [|split; [|split; [|split]]]].
  - intros ->. simpl. eexists. repeat split.
  - intros ->. simpl. eexists. repeat split.
  - intros Hge H401 H429.
    destruct (Z.eqb_spec (status res) 401); [contradiction|].
    destruct (Z.eqb_spec (status res) 429); [contradiction|].
    destruct (Z.geb_spec (status res) 400); [|lia].
    eexists. repeat split.
  - intros Hlt.
    destruct (Z.eqb_spec (status res) 401); [lia|].
    destruct (Z.eqb_spec (status res) 429); [lia|].
    destruct (Z.geb_spec (status res) 400); [lia|reflexivity].
  - intros c more rest. apply tryGetCarrierErrorCode_shape.
  - apply tryGetCarrierErrorCode_absent.
Qed.

Lemma rate_call_status_mapping_witness :
  exists e,
    fst (UpsRateClient_getRates sampleConfig badRequestTransport noText noText
           (ret "token") sampleRateRequest emptyWorld) = Throw (ThrownCIE e)
    /\ code e = CARRIER_ERROR
    /\ statusCode e = Some 400
    /\ carrierCode e = Some "INVALID_REQUEST".
Proof.
  destruct (rate_call_status_mapping sampleConfig badRequestTransport noText noText
              (ret "token") sampleRateRequest emptyWorld emptyWorld "token"
              {| status := 400; responseHeaders := []; responseBody := invalidRequestBody |}
              eq_refl eq_refl) as (_ & _ & H & _).
  destruct H as (e & He & Hc & Hs & Hcc); [simpl; lia | simpl; lia | simpl; lia |].
  exists e. repeat split; assumption.
Defined.

(** ** Token cache: acquisition *)

Section Acquisition.

Variable config : UpsConfig.
Variable http : HttpClient.
Variable base64 : string -> string.

(** One request, the token request, is handed to the transport whatever
    the outcome; cache and clock are left alone. *)
Lemma requestToken_world (w : World) :
  snd (requestToken config http base64 w) = logRequest (tokenRequest config base64) w.
Proof.
  unfold requestToken. unfold_js.
  destruct (http (requests w) (tokenRequest config base64)) as [res|[e|r]]; try reflexivity.
  destruct (status res =? 401); [reflexivity|].
  destruct (status res =? 429); [reflexivity|].
  destruct ((status res <? 200) || (status res >=? 300))%bool; [reflexivity|].
  destruct (UpsOAuthTokenResponseSchema (responseBody res)); reflexivity.
Qed.

Lemma requestToken_responds (w : World) (res : HttpResponse) :
  http (requests w) (tokenRequest config base64) = Responds res ->
  fst (requestToken config http base64 w) =
    if status res =? 401 then
      Throw (ThrownCIE
        {| code := AUTH_FAILED;
           message := "UPS OAuth: invalid client credentials (401)";
           statusCode := Some 401; carrierCode := None;
           context := Some [("url", JStr (oauthTokenUrl config))]; cause := None |})
    else if status res =? 429 then
      Throw (ThrownCIE
        {| code := RATE_LIMITED;
           message := "UPS OAuth: rate limited (429)";
           statusCode := Some 429; carrierCode := None;
           context := Some [("url", JStr (oauthTokenUrl config))]; cause := None |})
    else if ((status res <? 200) || (status res >=? 300))%bool then
      Throw (ThrownCIE
        {| code := AUTH_FAILED;
           message := "UPS OAuth failed: HTTP " ++ stringOfZ (status res);
           statusCode := Some (status res); carrierCode := None;
           context := Some [("url", JStr (oauthTokenUrl config));
                            ("body", responseBody res)];
           cause := None |})
    else
      match UpsOAuthTokenResponseSchema (responseBody res) with
      | ParseFailure iss =>
          Throw (ThrownCIE
            {| code := MALFORMED_RESPONSE;
               message := "UPS OAuth: invalid response — " ++ formatIssues iss;
               statusCode := Some (status res); carrierCode := None;
               context := Some [("body", responseBody res); ("issues", flatten iss)];
               cause := None |})
      | ParseSuccess data =>
          Return {| result_accessToken := access_token data;
                    expiresInSeconds := expires_in data |}
      end.
Proof.
  intros H. unfold requestToken. unfold_js. rewrite H.
  destruct (status res =? 401); [reflexivity|].
  destruct (status res =? 429); [reflexivity|].
  destruct ((status res <? 200) || (status res >=? 300))%bool; [reflexivity|].
  destruct (UpsOAuthTokenResponseSchema (responseBody res)); reflexivity.
Qed.

Lemma requestToken_rejects_raw (w : World) (r : RawThrown) :
  http (requests w) (tokenRequest config base64) = Rejects (ThrownRaw r) ->
  fst (requestToken config http base64 w) =
    Throw (ThrownCIE
      {| code := if isTimeout r then TIMEOUT else NETWORK_ERROR;
         message := "UPS OAuth: " ++ errorMessageOr "Unknown error during OAuth" r;
         statusCode := None; carrierCode := None;
         context := Some [("url", JStr (oauthTokenUrl config))];
         cause := Some r |}).
Proof.
  intros H. unfold requestToken. unfold_js. now rewrite H.
Qed.

Lemma requestToken_rejects_structured (w : World) (e : CarrierIntegrationError) :
  http (requests w) (tokenRequest config base64) = Rejects (ThrownCIE e) ->
  fst (requestToken config http base64 w) = Throw (ThrownCIE e).
Proof.
  intros H. unfold requestToken. unfold_js. now rewrite H.
Qed.

(** No raw exception leaves the acquisition. *)
Lemma requestToken_throws_structured (w : World) (t : Thrown) :
  fst (requestToken config http base64 w) = Throw t -> isCarrierIntegrationError t = true.
Proof.
  destruct (http (requests w) (tokenRequest config base64)) as [res|[e|r]] eqn:H.
  - rewrite (requestToken_responds w res H).
    destruct (status res =? 401); [now intros [= <-]|].
    destruct (status res =? 429); [now intros [= <-]|].
    destruct ((status res <? 200) || (status res >=? 300))%bool; [now intros [= <-]|].
    destruct (UpsOAuthTokenResponseSchema (responseBody res)); [discriminate|now intros [= <-]].
  - rewrite (requestToken_rejects_structured w e H). now intros [= <-].
  - rewrite (requestToken_rejects_raw w r H). now intros [= <-].
Qed.

(** A body without an [access_token], or with an empty one, fails the
    schema. *)
Lemma token_schema_requires_access_token (fields : list (string * JsValue)) :
  getField "access_token" fields = JUndefined \/ getField "access_token" fields = JStr "" ->
  exists iss, UpsOAuthTokenResponseSchema (JObj fields) = ParseFailure iss.
Proof.
  intros H. unfold UpsOAuthTokenResponseSchema, z_object.
  assert (exists iss, field fields "access_token" (z_string_min1 "access_token is required")
                      = ParseFailure iss) as (iss & ->)
    by (unfold field; destruct H as [-> | ->]; simpl; eauto).
  destruct (field fields "expires_in" z_expires_in),
           (field fields "token_type" (z_optional z_string)); simpl; eauto.
Qed.

End Acquisition.

(** C6 (counterexample). A transport may reject with a structured error of
    its own; the
    acquisition hands it on as it is, so the failure raised for this
    transport exception is neither TIMEOUT nor NETWORK_ERROR. *)
Lemma structured_transport_error_keeps_kind :
  fst (requestToken sampleConfig guardedTransport noText emptyWorld)
  = Throw (ThrownCIE policyError)
  /\ code policyError = VALIDATION_ERROR
  /\ code policyError <> TIMEOUT
  /\ code policyError <> NETWORK_ERROR.
Proof.
  split; [reflexivity|]. split; [reflexivity|]. split; discriminate.
Qed.

(** C6 (amended). The failure raised by an acquisition attempt is always a
    structured error, and its kind is: status 401 -> AUTH_FAILED; status 429
    -> RATE_LIMITED; any other status outside 200..299 -> AUTH_FAILED with
    that status attached; a 2xx body that fails the schema, as one without an
    access_token or with an empty one does -> MALFORMED_RESPONSE; a transport
    exception that is an Error named "AbortError" or whose message contains
    "abort" -> TIMEOUT; a transport exception that is already a structured
    error -> that same error, with its own kind; any other transport
    exception -> NETWORK_ERROR. *)
Theorem acquisition_failure_mapping
  (config : UpsConfig) (http : HttpClient) (base64 : string -> string) (w : World) :
  let out := fst (requestToken config http base64 w) in
  (forall res, http (requests w) (tokenRequest config base64) = Responds res ->
     (status res = 401 ->
      exists e, out = Throw (ThrownCIE e) /\ code e = AUTH_FAILED /\ statusCode e = Some 401) /\
     (status res = 429 ->
      exists e, out = Throw (ThrownCIE e) /\ code e = RATE_LIMITED /\ statusCode e = Some 429) /\
     (status res < 200 \/ status res >= 300 -> status res <> 401 -> status res <> 429 ->
      exists e, out = Throw (ThrownCIE e) /\ code e = AUTH_FAILED /\
                statusCode e = Some (status res)) /\
     (200 <= status res < 300 ->
      forall iss, UpsOAuthTokenResponseSchema (responseBody res) = ParseFailure iss ->
      exists e, out = Throw (ThrownCIE e) /\ code e = MALFORMED_RESPONSE) /\
     (200 <= status res < 300 ->
      forall data, UpsOAuthTokenResponseSchema (responseBody res) = ParseSuccess data ->
      out = Return {| result_accessToken := access_token data;
                      expiresInSeconds := expires_in data |})) /\
  (forall fields,
     getField "access_token" fields = JUndefined \/ getField "access_token" fields = JStr "" ->
     exists iss, UpsOAuthTokenResponseSchema (JObj fields) = ParseFailure iss) /\
  (forall r, http (requests w) (tokenRequest config base64) = Rejects (ThrownRaw r) ->
     exists e, out = Throw (ThrownCIE e) /\
               code e = (if isTimeout r then TIMEOUT else NETWORK_ERROR) /\
               cause e = Some r) /\
  (forall e, http (requests w) (tokenRequest config base64) = Rejects (ThrownCIE e) ->
     out = Throw (ThrownCIE e)) /\
  (forall t, out = Throw t -> isCarrierIntegrationError t = true).
Proof.
  intros out. subst out. split; [|split; [|split; [|split]]].
  - intros res H. rewrite (requestToken_responds _ _ _ _ _ H).
    split; [|split; [|split; [|split]]].
    + intros ->. simpl. eexists. repeat split.
    + intros ->. simpl. eexists. repeat split.
    + intros Hout H401 H429.
      destruct (Z.eqb_spec (status res) 401); [contradiction|].
      destruct (Z.eqb_spec (status res) 429); [contradiction|].
      destruct (Z.ltb_spec (status res) 200), (Z.geb_spec (status res) 300); simpl;
        try lia; eexists; repeat split.
    + intros Hin iss Hiss.
      destruct (Z.eqb_spec (status res) 401); [lia|].
      destruct (Z.eqb_spec (status res) 429); [lia|].
      destruct (Z.ltb_spec (status res) 200), (Z.geb_spec (status res) 300); simpl; try lia.
      rewrite Hiss. eexists. repeat split.
    + intros Hin data Hdata.
      destruct (Z.eqb_spec (status res) 401); [lia|].
      destruct (Z.eqb_spec (status res) 429); [lia|].
      destruct (Z.ltb_spec (status res) 200), (Z.geb_spec (status res) 300); simpl; try lia.
      now rewrite Hdata.
  - apply token_schema_requires_access_token.
  - intros r H. rewrite (requestToken_rejects_raw _ _ _ _ _ H). eexists. repeat split.
  - intros e H. apply (requestToken_rejects_structured _ _ _ _ _ H).
  - apply requestToken_throws_structured.
Qed.

Lemma acquisition_failure_mapping_witness :
  exists e,
    fst (requestToken sampleConfig abortingTransport noText emptyWorld) = Throw (ThrownCIE e)
    /\ code e = TIMEOUT.
Proof.
  destruct (acquisition_failure_mapping sampleConfig abortingTransport noText emptyWorld)
    as (_ & _ & Hraw & _).
  destruct (Hraw (JsError "AbortError" "This operation was aborted") eq_refl) as (e & He & Hc & _).
  exists e. split; [exact He | exact Hc].
Defined.

(** ** Token cache: reuse and refresh *)

Section TokenCache.

Variable config : UpsConfig.
Variable http : HttpClient.
Variable base64 : string -> string.

Lemma getValidToken_cached (w : World) (tok : CachedToken) :
  cached w = Some tok ->
  clock w < expiresAtMs tok - refreshBufferMs config ->
  getValidToken config http base64 w = (Return (accessToken tok), w).
Proof.
  intros Hc Hlt. unfold getValidToken. unfold_js. rewrite Hc.
  destruct (Z.gtb_spec (expiresAtMs tok - refreshBufferMs config) (clock w)); [reflexivity|lia].
Qed.

Lemma getValidToken_stale (w : World) :
  stillValid config (cached w) (clock w) = false ->
  getValidToken config http base64 w = acquireAndCache config http base64 (clock w) w.
Proof.
  unfold stillValid, getValidToken. unfold_js.
  destruct (cached w) as [tok|]; [|reflexivity].
  rewrite Z.gtb_ltb. now intros ->.
Qed.

Lemma acquireAndCache_Return (w : World) (now : Z) (t : TokenResult) :
  fst (requestToken config http base64 w) = Return t ->
  acquireAndCache config http base64 now w
  = (Return (result_accessToken t),
     {| cached := Some {| accessToken := result_accessToken t;
                          expiresAtMs := now + expiresInSeconds t * 1000 |};
        clock := clock w;
        requests := (requests w ++ [tokenRequest config base64])%list |}).
Proof.
  intros H. pose proof (requestToken_world config http base64 w) as Hw.
  unfold acquireAndCache. unfold_js.
  destruct (requestToken config http base64 w) as [c w']. simpl in H, Hw. subst c w'. reflexivity.
Qed.

Lemma acquireAndCache_Throw (w : World) (now : Z) (e : Thrown) :
  fst (requestToken config http base64 w) = Throw e ->
  acquireAndCache config http base64 now w = (Throw e, logRequest (tokenRequest config base64) w).
Proof.
  intros H. pose proof (requestToken_world config http base64 w) as Hw.
  unfold acquireAndCache. unfold_js.
  destruct (requestToken config http base64 w) as [c w']. simpl in H, Hw. subst c w'. reflexivity.
Qed.

End TokenCache.

(** C1. Whatever the state of the token cache and the reading of the clock:
    when a token is cached and its expiry minus the refresh buffer lies
    strictly after the current time, [getValidToken] returns the cached
    access token and changes nothing, so no request reaches the transport;
    otherwise it hands exactly one request, the token request, to the
    transport, and when that acquisition yields a token it stores the token
    with expiry [now + expiresInSeconds] (in milliseconds,
    [now + expiresInSeconds * 1000]) and returns it, while a failed
    acquisition is raised and leaves the cache as it was. Hence two calls in
    a row, the second while the fresh token is still valid, hand one request
    to the transport in total. *)
Theorem token_cache_reuse
  (config : UpsConfig) (http : HttpClient) (base64 : string -> string) (w : World) :
  let acquired := fst (requestToken config http base64 w) in
  let out := getValidToken config http base64 w in
  (forall tok, cached w = Some tok ->
               clock w < expiresAtMs tok - refreshBufferMs config ->
               out = (Return (accessToken tok), w)) /\
  (stillValid config (cached w) (clock w) = false ->
   requests (snd out) = (requests w ++ [tokenRequest config base64])%list /\
   (forall t, acquired = Return t ->
      fst out = Return (result_accessToken t) /\
      cached (snd out) = Some {| accessToken := result_accessToken t;
                                 expiresAtMs := clock w + expiresInSeconds t * 1000 |}) /\
   (forall e, acquired = Throw e -> fst out = Throw e /\ cached (snd out) = cached w)) /\
  (forall t later,
     stillValid config (cached w) (clock w) = false ->
     acquired = Return t ->
     later < clock w + expiresInSeconds t * 1000 - refreshBufferMs config ->
     let out2 := getValidToken config http base64 (atTime later (snd out)) in
     fst out2 = Return (result_accessToken t) /\
     requests (snd out2) = (requests w ++ [tokenRequest config base64])%list).
Proof.
  intros acquired out. subst acquired out. split; [|split].
  - intros tok Hc Hlt. now apply getValidToken_cached.
  - intros Hstale. rewrite (getValidToken_stale _ _ _ _ Hstale).
    destruct (fst (requestToken config http base64 w)) as [t|e] eqn:Hacq.
    + rewrite (acquireAndCache_Return _ _ _ _ _ _ Hacq). simpl.
      split; [reflexivity|]. split; [|discriminate].
      intros t' [= <-]. split; reflexivity.
    + rewrite (acquireAndCache_Throw _ _ _ _ _ _ Hacq). simpl.
      split; [reflexivity|]. split; [discriminate|].
      intros e' [= <-]. split; reflexivity.
  - intros t later Hstale Hacq Hlater.
    rewrite (getValidToken_stale _ _ _ _ Hstale).
    rewrite (acquireAndCache_Return _ _ _ _ _ _ Hacq). simpl.
    rewrite (getValidToken_cached config http base64 _
               {| accessToken := result_accessToken t;
                  expiresAtMs := clock w + expiresInSeconds t * 1000 |});
      [split; reflexivity | reflexivity | simpl; lia].
Qed.

Lemma token_cache_reuse_witness :
  let first := getValidToken sampleConfig happyTransport noText emptyWorld in
  let second := getValidToken sampleConfig happyTransport noText
                  (atTime (clock emptyWorld + 1000) (snd first)) in
  fst first = Return "test_token_abc123" /\
  fst second = Return "test_token_abc123" /\
  requests (snd second) = [tokenRequest sampleConfig noText].
Proof.
  destruct (token_cache_reuse sampleConfig happyTransport noText emptyWorld)
    as (_ & Hstale & Htwice).
  destruct (Hstale eq_refl) as (_ & Hret & _).
  destruct (Hret {| result_accessToken := "test_token_abc123"; expiresInSeconds := 3600 |}
                 eq_refl) as (Hfirst & _).
  destruct (Htwice {| result_accessToken := "test_token_abc123"; expiresInSeconds := 3600 |}
                   (clock emptyWorld + 1000) eq_refl eq_refl eq_refl) as (Hsecond & Hreqs).
  cbv zeta. split; [exact Hfirst|]. split; [exact Hsecond | exact Hreqs].
Defined.

(** ** Reading well-formed numeric strings *)

Lemma string_app_empty (s : string) : (s ++ "")%string = s.
Proof. induction s as [|c s IH]; simpl; [reflexivity|now rewrite IH]. Qed.

Lemma string_length_app (a b : string) :
  String.length (a ++ b) = (String.length a + String.length b)%nat.
Proof. induction a as [|c a IH]; simpl; [reflexivity|now rewrite IH]. Qed.

Lemma spanDigits_app (a b : string) :
  allDigits a = true ->
  spanDigits (a ++ b) = ((a ++ fst (spanDigits b))%string, snd (spanDigits b)).
Proof.
  induction a as [|c a IH]; simpl; intros H.
  - now destruct (spanDigits b).
  - apply andb_true_iff in H. destruct H as [Hc Ha].
    rewrite Hc, (IH Ha). reflexivity.
Qed.

Lemma spanDigits_all (a : string) : allDigits a = true -> spanDigits a = (a, "").
Proof.
  intros H. rewrite <- (string_app_empty a) at 1.
  rewrite (spanDigits_app a "" H). simpl. now rewrite string_app_empty.
Qed.

Lemma spanDigits_before_dot (a b : string) :
  allDigits a = true -> spanDigits (a ++ String "." b) = (a, String "."%char b).
Proof.
  intros H. rewrite (spanDigits_app _ _ H). simpl. now rewrite string_app_empty.
Qed.

(** A digit is neither white space, nor a sign, nor the first letter of
    "Infinity". *)
Lemma digit_head (c : ascii) (s : string) :
  isDigit c = true ->
  trimStart (String c s) = String c s /\
  scanSign (String c s) = (false, String c s) /\
  prefix "Infinity" (String c s) = false.
Proof.
  destruct c as [[] [] [] [] [] [] [] []]; try discriminate; intros _; repeat split.
Qed.

Lemma splitAtDot_spec (s : string) :
  match splitAtDot s with
  | (ip, Some fp) => s = (ip ++ String "." fp)%string
  | (ip, None) => s = ip
  end.
Proof.
  induction s as [|c s IH]; simpl; [reflexivity|].
  destruct (Ascii.eqb_spec c "."%char) as [->|Hc]; [reflexivity|].
  destruct (splitAtDot s) as [ip [fp|]]; simpl; now rewrite IH at 1.
Qed.

Lemma digitsValueFrom_denote (s : string) (acc : Z) :
  digitsValueFrom acc s = acc * 10 ^ Z.of_nat (String.length s) + digitsDenote s.
Proof.
  revert acc. induction s as [|c s IH]; intros acc; simpl digitsValueFrom; simpl digitsDenote.
  - simpl. lia.
  - rewrite IH. change (String.length (String c s)) with (S (String.length s)).
    rewrite Nat2Z.inj_succ, Z.pow_succ_r by lia. ring.
Qed.

Lemma digitsValue_denote (s : string) : digitsValue s = digitsDenote s.
Proof. unfold digitsValue. rewrite digitsValueFrom_denote. lia. Qed.

Lemma digitsDenote_app (a b : string) :
  digitsDenote (a ++ b) = digitsDenote a * 10 ^ Z.of_nat (String.length b) + digitsDenote b.
Proof.
  induction a as [|c a IH]; simpl digitsDenote; simpl append; [lia|].
  simpl digitsDenote. rewrite IH, string_length_app, Nat2Z.inj_add, Z.pow_add_r by lia. ring.
Qed.

Lemma Qnegative_Qeq (p q : Q) : (p == q)%Q -> Qnegative p = Qnegative q.
Proof.
  intros H. unfold Qnegative.
  destruct (Z.ltb_spec (Qnum p) 0), (Z.ltb_spec (Qnum q) 0); try reflexivity; exfalso.
  - apply Qnum_nonneg in H1. rewrite <- H in H1. apply Qnum_nonneg in H1. lia.
  - apply Qnum_nonneg in H0. rewrite H in H0. apply Qnum_nonneg in H0. lia.
Qed.

Lemma toNumber_Qeq (p q : Q) : (p == q)%Q -> toNumber p = toNumber q.
Proof.
  intros H. unfold toNumber.
  rewrite (Qnegative_Qeq _ _ H), (Qred_complete _ _ H).
  destruct (Qle_bool (inject_Z overflowBound) (Qabs p)) eqn:Ep,
           (Qle_bool (inject_Z overflowBound) (Qabs q)) eqn:Eq; try reflexivity; exfalso.
  - apply Qle_bool_iff in Ep. rewrite H in Ep. apply Qle_bool_iff in Ep. congruence.
  - apply Qle_bool_iff in Eq. rewrite <- H in Eq. apply Qle_bool_iff in Eq. congruence.
Qed.

Lemma pow10_nonzero (n : nat) : ~ (inject_Z (10 ^ Z.of_nat n) == 0)%Q.
Proof.
  unfold Qeq. simpl. pose proof (Z.pow_pos_nonneg 10 (Z.of_nat n)). lia.
Qed.

Lemma literalValue_fraction (ip fp : string) :
  (literalValue ip fp 0
   == inject_Z (digitsDenote ip)
      + inject_Z (digitsDenote fp) / inject_Z (10 ^ Z.of_nat (String.length fp)))%Q.
Proof.
  unfold literalValue.
  rewrite digitsValue_denote, digitsDenote_app.
  replace (0 - Z.of_nat (String.length fp)) with (- Z.of_nat (String.length fp)) by lia.
  rewrite Qpower_opp, <- Zpower_Qpower by lia.
  rewrite inject_Z_plus, inject_Z_mult.
  field. apply pow10_nonzero.
Qed.

Lemma literalValue_whole (ip : string) :
  (literalValue ip "" 0 == inject_Z (digitsDenote ip) + 0)%Q.
Proof.
  unfold literalValue. rewrite string_app_empty, digitsValue_denote. simpl. ring.
Qed.

Lemma nonEmpty_digits_head (s : string) :
  nonEmpty s = true -> allDigits s = true ->
  exists c r, s = String c r /\ isDigit c = true.
Proof.
  destruct s as [|c r]; [discriminate|]. simpl. intros _ H.
  apply andb_true_iff in H. destruct H as [Hc _]. eauto.
Qed.

(** On plain decimal notation [parseFloat] reads the value the notation
    denotes. *)
Lemma parseFloat_decimal (s : string) :
  isDecimalString s = true -> parseFloat s = toNumber (decimalStringValue s).
Proof.
  unfold isDecimalString, decimalStringValue.
  pose proof (splitAtDot_spec s) as Hs.
  destruct (splitAtDot s) as [ip fp].
  intros H. apply andb_true_iff in H. destruct H as [H Hfp].
  apply andb_true_iff in H. destruct H as [Hne Hip].
  destruct (nonEmpty_digits_head ip Hne Hip) as (c & r & Eip & Hc).
  unfold parseFloat.
  destruct fp as [fp|]; subst s.
  - assert (Hhead : (ip ++ String "." fp)%string = String c (r ++ String "." fp))
      by (subst ip; reflexivity).
    rewrite Hhead. destruct (digit_head c (r ++ String "." fp) Hc) as (-> & -> & Hinf).
    unfold scanUnsignedLiteral. rewrite Hinf, <- Hhead.
    rewrite (spanDigits_before_dot ip fp Hip), (spanDigits_all fp Hfp).
    replace (match ip with "" => match fp with "" => None | _ => Some (LitDecimal ip fp (scanExponent "")) end
                         | _ => Some (LitDecimal ip fp (scanExponent "")) end)
      with (Some (LitDecimal ip fp 0)) by (subst ip; reflexivity).
    simpl signedQ. apply toNumber_Qeq. apply literalValue_fraction.
  - subst ip. destruct (digit_head c r Hc) as (-> & -> & Hinf).
    unfold scanUnsignedLiteral. rewrite Hinf.
    rewrite (spanDigits_all (String c r) Hip).
    simpl signedQ. apply toNumber_Qeq. apply literalValue_whole.
Qed.

Lemma parseInt10_integer (s : string) :
  isIntegerString s = true -> parseInt10 s = toNumber (integerStringValue s).
Proof.
  unfold isIntegerString, integerStringValue. intros H.
  apply andb_true_iff in H. destruct H as [Hne Hs].
  destruct (nonEmpty_digits_head s Hne Hs) as (c & r & -> & Hc).
  unfold parseInt10. destruct (digit_head c r Hc) as (-> & -> & _).
  rewrite (spanDigits_all (String c r) Hs).
  simpl signedQ. now rewrite digitsValue_denote.
Qed.

(** ** Round trip through a synthetic success body *)

Lemma parseItems_synthetic (qs : list SyntheticQuote) (i : nat) :
  parseItems UpsRatedShipmentSchema i (map syntheticRatedShipment qs)
  = ParseSuccess (map syntheticShipmentData qs).
Proof.
  revert i. induction qs as [|q qs IH]; intros i; simpl; [reflexivity|].
  rewrite IH. reflexivity.
Qed.

Lemma isDecimalString_nonEmpty (s : string) :
  isDecimalString s = true -> String.eqb s "" = false.
Proof. destruct s; [discriminate|reflexivity]. Qed.

Lemma isIntegerString_nonEmpty (s : string) :
  isIntegerString s = true -> String.eqb s "" = false.
Proof. destruct s; [discriminate|reflexivity]. Qed.

Lemma toNumber_isNaN (q : Q) : Number_isNaN (toNumber q) = false.
Proof. apply Number_isNaN_false, toNumber_not_NaN. Qed.

Lemma toRateQuote_synthetic (carrierId : string) (q : SyntheticQuote) :
  wellFormedQuote q = true ->
  toRateQuote carrierId (syntheticShipmentData q) = matchingQuote carrierId q.
Proof.
  unfold wellFormedQuote. intros H. apply andb_true_iff in H. destruct H as [Hc Hd].
  unfold toRateQuote, matchingQuote, syntheticShipmentData.
  cbn [Service TotalCharges GuaranteedDelivery andThen orElse Service_Code Service_Name
       MonetaryValue CurrencyCode BusinessDaysInTransit].
  rewrite (isDecimalString_nonEmpty _ Hc), (isIntegerString_nonEmpty _ Hd).
  rewrite (parseFloat_decimal _ Hc), (parseInt10_integer _ Hd).
  rewrite !toNumber_isNaN. reflexivity.
Qed.

(** C7. Round trip: for every list of quotes whose charge is written in
    plain decimal notation and whose transit days are a string of digits,
    parsing the synthetic success body built from the list yields a
    RateResponse whose quotes match the list field for field (service code,
    service name, total charge, currency code, transit days), one quote per
    element and in the same order. *)
Theorem synthetic_body_round_trip (carrierId : string) (qs : list SyntheticQuote) :
  Forall (fun q => wellFormedQuote q = true) qs ->
  parseUpsRateResponse (buildSyntheticSuccessBody qs) carrierId
  = Return {| quotes := map (matchingQuote carrierId) qs; requestId := None |}.
Proof.
  intros Hwf.
  unfold parseUpsRateResponse, buildSyntheticSuccessBody.
  unfold UpsRateResponseSchema, z_object, field.
  cbn [getField String.eqb Ascii.eqb Bool.eqb z_optional atKey].
  unfold UpsRateResponseInnerSchema, z_object, field.
  cbn [getField String.eqb Ascii.eqb Bool.eqb z_optional z_array].
  rewrite parseItems_synthetic. simpl.
  f_equal. f_equal. rewrite map_map. apply map_ext_in.
  intros q Hq. apply toRateQuote_synthetic.
  rewrite Forall_forall in Hwf. now apply Hwf.
Qed.

Lemma synthetic_body_round_trip_witness :
  parseUpsRateResponse (buildSyntheticSuccessBody [syntheticGround; syntheticExpress]) "ups"
  = Return {| quotes := [quoteGround; quoteExpress]; requestId := None |}.
Proof.
  rewrite (synthetic_body_round_trip "ups" [syntheticGround; syntheticExpress]).
  - vm_compute. reflexivity.
  - repeat constructor.
Defined.

(** ** Dispatcher: failures of the carrier client *)

Lemma getRates_carrier_throws
  (svc : CarrierIntegrationService) (carrierId : string) (request : JsValue)
  (c : CarrierIntegration) (validated : RateRequest) (w w' : World) (t : Thrown) :
  mapGet carrierId (carriers svc) = Some c ->
  supports rate c = true ->
  RateRequestSchema request = ParseSuccess validated ->
  execute c (RateInput validated) w = (Throw t, w') ->
  getRates svc carrierId request w
  = (Throw match t with
           | ThrownCIE e => ThrownCIE e
           | ThrownRaw r =>
               ThrownCIE {| code := UNKNOWN;
                            message := errorMessageOr "Carrier request failed" r;
                            statusCode := None; carrierCode := None; context := None;
                            cause := Some r |}
           end, w').
Proof.
  intros Hget Hsup Hreq Hexec. unfold getRates.
  rewrite Hget, Hsup, Hreq. simpl. unfold_js. rewrite Hexec.
  destruct t; reflexivity.
Qed.

(** C8 (counterexample). A carrier client that raises a thrown value which is
    not an [Error], here
    the plain object [{message: "socket hang up"}] with which the transport
    rejected the rate call, is answered with UNKNOWN and the fixed message
    "Carrier request failed": the message of the thrown value is not kept. *)
Lemma non_error_message_not_preserved :
  exists e,
    fst (getRates (newCarrierIntegrationService [sampleUps hangingTransport])
           "ups" requestWithLengthOnly emptyWorld) = Throw (ThrownCIE e)
    /\ code e = UNKNOWN
    /\ cause e = Some (JsOther hangUp)
    /\ getProp hangUp "message" = JStr "socket hang up"
    /\ message e = "Carrier request failed"
    /\ message e <> "socket hang up".
Proof.
  eexists. split; [vm_compute; reflexivity|]. simpl. repeat split. discriminate.
Qed.

(** C8 (amended). A failure raised by the carrier client during
    [getRates]: a structured error reaches the caller unchanged (same kind,
    message, status, carrier code and context); any other thrown value is
    wrapped as a structured error of kind UNKNOWN that keeps the thrown value
    as its cause, with the message of the thrown value when that is an
    [Error], and with the fixed message "Carrier request failed" when it is
    not. *)
Theorem dispatcher_failure_normalisation
  (svc : CarrierIntegrationService) (carrierId : string) (request : JsValue)
  (c : CarrierIntegration) (validated : RateRequest) (w w' : World) (t : Thrown) :
  mapGet carrierId (carriers svc) = Some c ->
  supports rate c = true ->
  RateRequestSchema request = ParseSuccess validated ->
  execute c (RateInput validated) w = (Throw t, w') ->
  let out := fst (getRates svc carrierId request w) in
  (forall e, t = ThrownCIE e -> out = Throw (ThrownCIE e)) /\
  (forall name msg, t = ThrownRaw (JsError name msg) ->
     exists e, out = Throw (ThrownCIE e) /\ code e = UNKNOWN /\ message e = msg /\
               cause e = Some (JsError name msg)) /\
  (forall v, t = ThrownRaw (JsOther v) ->
     exists e, out = Throw (ThrownCIE e) /\ code e = UNKNOWN /\
               message e = "Carrier request failed" /\ cause e = Some (JsOther v)).
Proof.
  intros Hget Hsup Hreq Hexec out. subst out.
  rewrite (getRates_carrier_throws _ _ _ _ _ _ _ _ Hget Hsup Hreq Hexec). simpl.
  split; [|split].
  - intros e ->. reflexivity.
  - intros name msg ->. eexists. repeat split.
  - intros v ->. eexists. repeat split.
Qed.

Lemma dispatcher_failure_normalisation_witness :
  exists e,
    fst (getRates (newCarrierIntegrationService [sampleUps failingTransport])
           "ups" requestWithLengthOnly emptyWorld) = Throw (ThrownCIE e)
    /\ code e = UNKNOWN
    /\ message e = "fetch failed: timeout".
Proof.
  pose (w1 := snd (execute (sampleUps failingTransport)
                     (RateInput {| origin := {| line1 := "123 Origin St"; line2 := None;
                                                line3 := None; city := "Atlanta";
                                                stateProvinceCode := None;
                                                postalCode := "30301"; countryCode := "US" |};
                                   destination := {| line1 := "456 Dest Ave"; line2 := None;
                                                     line3 := None; city := "New York";
                                                     stateProvinceCode := None;
                                                     postalCode := "10001";
                                                     countryCode := "US" |};
                                   packages := [{| weight := Finite 5; weightUnit := LBS;
                                                   length := Some (Finite 10); width := None;
                                                   height := None; dimensionUnit := IN |}];
                                   req_serviceCode := None |}) emptyWorld)).
  destruct (dispatcher_failure_normalisation
              (newCarrierIntegrationService [sampleUps failingTransport])
              "ups" requestWithLengthOnly (sampleUps failingTransport) _ emptyWorld w1
              (ThrownRaw (JsError "Error" "fetch failed: timeout"))
              eq_refl eq_refl eq_refl eq_refl) as (_ & Herr & _).
  destruct (Herr "Error" "fetch failed: timeout" eq_refl) as (e & He & Hc & Hm & _).
  exists e. repeat split; assumption.
Defined.

(** ** Scenarios of the integration tests *)

Example scenario_success :
  RateRequestSchema SAMPLE_RATE_REQUEST = ParseSuccess sampleRateRequest
  /\ getRates (newCarrierIntegrationService [sampleUps happyTransport])
       "ups" SAMPLE_RATE_REQUEST emptyWorld
     = (Return {| quotes := [quoteGround; quoteExpress]; requestId := None |},
        {| cached := Some {| accessToken := "test_token_abc123";
                             expiresAtMs := clock emptyWorld + 3600 * 1000 |};
           clock := clock emptyWorld;
           requests := [tokenRequest sampleConfig noText;
                        rateRequest sampleConfig noText noText "test_token_abc123"
                          sampleRateRequest] |}).
Proof. vm_compute. split; reflexivity. Qed.

Example scenario_token_reuse :
  let svc := newCarrierIntegrationService [sampleUps happyTransport] in
  let w1 := snd (getRates svc "ups" SAMPLE_RATE_REQUEST emptyWorld) in
  let w2 := snd (getRates svc "ups" SAMPLE_RATE_REQUEST (atTime (clock w1 + 5000) w1)) in
  List.length (filter (fun r => String.eqb (url r) (oauthTokenUrl sampleConfig)) (requests w2))
  = 1%nat
  /\ List.length (requests w2) = 3%nat.
Proof. vm_compute. split; reflexivity. Qed.

Example scenario_unknown_carrier :
  exists e,
    fst (getRates (newCarrierIntegrationService [sampleUps happyTransport])
           "fedex" SAMPLE_RATE_REQUEST emptyWorld) = Throw (ThrownCIE e)
    /\ code e = VALIDATION_ERROR
    /\ context e = Some [("availableCarriers", JArr [JStr "ups"])].
Proof. eexists. split; [vm_compute; reflexivity|]. split; reflexivity. Qed.

Example scenario_no_packages :
  exists e,
    fst (getRates (newCarrierIntegrationService [sampleUps happyTransport]) "ups"
           (JObj [("origin", sampleAddress "x" "x" "x");
                  ("destination", sampleAddress "y" "y" "y");
                  ("packages", JArr [])]) emptyWorld) = Throw (ThrownCIE e)
    /\ code e = VALIDATION_ERROR
    /\ message e = "Invalid rate request: packages: At least one package is required".
Proof. eexists. split; [vm_compute; reflexivity|]. split; reflexivity. Qed.

Example scenario_malformed_body :
  (exists e, parseUpsRateResponse JNull "ups" = Throw (ThrownCIE e)
             /\ code e = MALFORMED_RESPONSE)
  /\ (exists e, parseUpsRateResponse (JObj []) "ups" = Throw (ThrownCIE e)
                /\ code e = MALFORMED_RESPONSE).
Proof. split; eexists; (split; [vm_compute; reflexivity|reflexivity]). Qed.

Example scenario_carrier_4xx :
  exists e,
    fst (getRates (newCarrierIntegrationService [sampleUps
            (fun _ req => if String.eqb (url req) (oauthTokenUrl sampleConfig)
                          then okResponse UPS_OAUTH_SUCCESS
                          else badRequestTransport [] req)])
           "ups" SAMPLE_RATE_REQUEST emptyWorld) = Throw (ThrownCIE e)
    /\ code e = CARRIER_ERROR
    /\ statusCode e = Some 400
    /\ carrierCode e = Some "INVALID_REQUEST".
Proof. eexists. split; [vm_compute; reflexivity|]. repeat split. Qed.

(** ** Stub transport *)

Lemma stubNext_all_state (rs : list StubResponse) (st : StubState) :
  thrownNotNull (nextReject st) = false ->
  responseQueue (fold_left (fun s r => stubNext r s) rs st) = (responseQueue st ++ rs)%list /\
  stubRequests (fold_left (fun s r => stubNext r s) rs st) = stubRequests st /\
  thrownNotNull (nextReject (fold_left (fun s r => stubNext r s) rs st)) = false.
Proof.
  revert st. induction rs as [|r rs IH]; intros st Hn; simpl.
  - rewrite app_nil_r. auto.
  - destruct (IH (stubNext r st) eq_refl) as (Hq & Hr & Hj).
    rewrite Hq, Hr. simpl. rewrite <- app_assoc. auto.
Qed.

Lemma stubRequests_run_queue (reqs : list HttpRequest) :
  forall (q rest : list StubResponse) (st : StubState),
    thrownNotNull (nextReject st) = false ->
    responseQueue st = (q ++ rest)%list ->
    List.length reqs = List.length q ->
    stubRequests_run reqs st
    = (map stubResponseOutcome q,
       {| stubRequests := (stubRequests st ++ map recordOf reqs)%list;
          responseQueue := rest;
          nextReject := nextReject st |}).
Proof.
  induction reqs as [|r reqs IH]; intros q rest st Hn Hq Hlen.
  - destruct q; [|discriminate]. simpl in *. rewrite app_nil_r, <- Hq.
    now destruct st.
  - destruct q as [|x q]; [discriminate|]. simpl in Hlen. injection Hlen as Hlen.
    simpl. unfold stubRequest. rewrite Hn, Hq. simpl.
    match goal with
    | |- context [stubRequests_run reqs ?s] => rewrite (IH q rest s Hn eq_refl Hlen)
    end. simpl.
    rewrite <- app_assoc. reflexivity.
Qed.

(** X1. Responses stubbed with [stubNext] on a client with nothing pending
    are served first in, first out: as many requests as responses resolve
    with the responses in the order they were stubbed, every request is
    recorded, and the request after the last response rejects with the
    "no stubbed response" error. *)
Theorem stub_serves_in_order
  (rs : list StubResponse) (reqs : list HttpRequest) (extra : HttpRequest) (st : StubState) :
  thrownNotNull (nextReject st) = false ->
  responseQueue st = [] ->
  List.length reqs = List.length rs ->
  let run := stubRequests_run reqs (fold_left (fun s r => stubNext r s) rs st) in
  fst run = map stubResponseOutcome rs /\
  getRequests (snd run) = (getRequests st ++ map recordOf reqs)%list /\
  fst (stubRequest extra (snd run)) = Rejects (ThrownRaw (JsError "Error" NO_STUB_MESSAGE)).
Proof.
  intros Hn Hq Hlen run. subst run.
  destruct (stubNext_all_state rs st Hn) as (Hq' & Hr' & Hn').
  rewrite Hq in Hq'. simpl in Hq'.
  rewrite (stubRequests_run_queue reqs rs [] _ Hn' (eq_trans Hq' (eq_sym (app_nil_r rs))) Hlen).
  simpl. unfold getRequests. rewrite Hr'. split; [reflexivity|]. split; [reflexivity|].
  unfold stubRequest. simpl. rewrite Hn'. reflexivity.
Qed.

Lemma stub_serves_in_order_witness :
  fst (stubRequests_run [tokenRequest sampleConfig noText;
                         rateRequest sampleConfig noText noText "test_token_abc123"
                           sampleRateRequest]
         (stubNext stubRateResponse (stubNext stubTokenResponse createStubHttpClient)))
  = [okResponse UPS_OAUTH_SUCCESS; okResponse UPS_RATE_SUCCESS].
Proof.
  apply (stub_serves_in_order [stubTokenResponse; stubRateResponse]
           [tokenRequest sampleConfig noText;
            rateRequest sampleConfig noText noText "test_token_abc123" sampleRateRequest]
           (tokenRequest sampleConfig noText) createStubHttpClient);
    reflexivity.
Defined.

(** X2. [stubNextReject] discards the responses queued so far and arms one
    rejection: the next request rejects with the given error, and the request
    after it finds nothing stubbed. With [null] as the error nothing is armed,
    yet the queue is discarded all the same, so the next request already
    finds nothing stubbed. A response stubbed after [stubNextReject]
    withdraws the pending rejection: the next request resolves with that
    response. *)
Theorem stub_reject_once_and_clears
  (err : Thrown) (res : StubResponse) (st : StubState) (r1 r2 : HttpRequest) :
  let st1 := stubNextReject err st in
  (thrownNotNull err = true ->
   fst (stubRequest r1 st1) = Rejects err /\
   fst (stubRequest r2 (snd (stubRequest r1 st1)))
   = Rejects (ThrownRaw (JsError "Error" NO_STUB_MESSAGE))) /\
  (thrownNotNull err = false ->
   fst (stubRequest r1 st1) = Rejects (ThrownRaw (JsError "Error" NO_STUB_MESSAGE))) /\
  fst (stubRequest r1 (stubNext res st1)) = stubResponseOutcome res.
Proof.
  cbv zeta. split; [|split].
  - intros H. unfold stubRequest, stubNextReject. simpl. rewrite H. simpl. auto.
  - intros H. unfold stubRequest, stubNextReject. simpl. rewrite H. reflexivity.
  - reflexivity.
Qed.

Lemma stub_reject_once_and_clears_witness :
  fst (stubRequest (tokenRequest sampleConfig noText)
         (stubNextReject fetchFailed (stubNext stubTokenResponse createStubHttpClient)))
  = Rejects fetchFailed.
Proof.
  apply (proj1 (stub_reject_once_and_clears fetchFailed stubTokenResponse
                  (stubNext stubTokenResponse createStubHttpClient)
                  (tokenRequest sampleConfig noText) (tokenRequest sampleConfig noText))).
  reflexivity.
Defined.

Lemma stubRequests_run_log (reqs : list HttpRequest) (st : StubState) :
  getRequests (snd (stubRequests_run reqs st)) = (getRequests st ++ map recordOf reqs)%list.
Proof.
  revert st. induction reqs as [|r reqs IH]; intros st; simpl.
  - now rewrite app_nil_r.
  - destruct (stubRequest r st) as [o st1] eqn:E.
    specialize (IH st1). destruct (stubRequests_run reqs st1) as [os st2]. simpl in *.
    rewrite IH.
    assert (Hlog : getRequests st1 = (getRequests st ++ [recordOf r])%list).
    { unfold stubRequest in E. unfold getRequests.
      destruct (thrownNotNull (nextReject st)); [now inversion E|].
      destruct (responseQueue st); now inversion E. }
    rewrite Hlog, <- app_assoc. reflexivity.
Qed.

(** X3. The stub records every request it is handed, in order, whether the
    request resolved or rejected and whatever was stubbed; [reset] empties
    the record, the queue and the pending rejection. *)
Theorem stub_records_every_request (reqs : list HttpRequest) (st : StubState) :
  getRequests (snd (stubRequests_run reqs st)) = (getRequests st ++ map recordOf reqs)%list /\
  List.length (fst (stubRequests_run reqs st)) = List.length reqs /\
  getRequests (snd (stubRequests_run reqs (reset st))) = map recordOf reqs /\
  reset (snd (stubRequests_run reqs st)) = createStubHttpClient.
Proof.
  split; [apply stubRequests_run_log|]. split; [|split].
  - revert st. induction reqs as [|r reqs IH]; intros st; simpl; [reflexivity|].
    destruct (stubRequest r st) as [o st1]. specialize (IH st1).
    destruct (stubRequests_run reqs st1). simpl in *. now rewrite IH.
  - now rewrite stubRequests_run_log.
  - reflexivity.
Qed.

(** ** Domain validation *)

Lemma zap_success_inv {A B : Type} (f : SafeParse (A -> B)) (x : SafeParse A) (b : B) :
  zap f x = ParseSuccess b ->
  exists g a, f = ParseSuccess g /\ x = ParseSuccess a /\ b = g a.
Proof.
  destruct f as [g|i], x as [a|j]; simpl; try discriminate.
  intros [= <-]. eauto.
Qed.

Lemma atKey_success_inv {A : Type} (k : string) (r : SafeParse A) (a : A) :
  atKey k r = ParseSuccess a -> r = ParseSuccess a.
Proof. destruct r; simpl; [auto|discriminate]. Qed.

Lemma field_success_inv {A : Type} (f : list (string * JsValue)) (k : string)
  (s : Schema A) (a : A) :
  field f k s = ParseSuccess a -> s (getField k f) = ParseSuccess a.
Proof. apply atKey_success_inv. Qed.

Lemma z_string_min1_inv (msg : string) (v : JsValue) (s : string) :
  z_string_min1 msg v = ParseSuccess s -> v = JStr s /\ nonEmpty s = true.
Proof.
  destruct v; simpl; try discriminate.
  destruct s0; simpl; [discriminate|]. now intros [= <-].
Qed.

Lemma z_string_length_inv (n : nat) (msg : string) (v : JsValue) (s : string) :
  z_string_length n msg v = ParseSuccess s -> v = JStr s /\ (String.length s =? n)%nat = true.
Proof.
  destruct v; simpl; try discriminate.
  destruct (String.length s0 =? n)%nat eqn:E; [|discriminate]. now intros [= <-].
Qed.

Lemma z_optional_max_inv (n : nat) (v : JsValue) (o : option string) :
  z_optional (z_string_max n) v = ParseSuccess o -> optionalWithin n o = true.
Proof.
  destruct v; simpl; try discriminate; try (now intros [= <-]).
  destruct (String.length s <=? n)%nat eqn:E; [|discriminate]. now intros [= <-].
Qed.

Lemma z_number_positive_inv (msg : string) (v : JsValue) (n : JsNumber) :
  z_number_positive msg v = ParseSuccess n -> v = JNum n /\ isPositive n = true.
Proof.
  destruct v; simpl; try discriminate.
  destruct n0; simpl; try discriminate.
  - destruct negative; simpl; [discriminate|]. now intros [= <-].
  - destruct (0 <? Qnum q) eqn:E; [|discriminate]. now intros [= <-].
Qed.

Lemma z_optional_positive_inv (msg : string) (v : JsValue) (o : option JsNumber) :
  z_optional (z_number_positive msg) v = ParseSuccess o -> presentArePositive o = true.
Proof.
  unfold z_optional. destruct v; try (now intros [= <-]);
    try (simpl; discriminate).
  destruct (z_number_positive msg (JNum n)) eqn:E; [|discriminate].
  intros [= <-]. simpl. now apply z_number_positive_inv in E.
Qed.

Ltac invert_zap H :=
  repeat match type of H with
         | zap _ _ = ParseSuccess _ =>
             let g := fresh "g" in let a := fresh "a" in
             let Hg := fresh "Hg" in let Ha := fresh "Ha" in let E := fresh "E" in
             apply zap_success_inv in H; destruct H as (g & a & Hg & Ha & E);
             apply field_success_inv in Ha; subst; rename Hg into H
         end.

Lemma AddressSchema_sound (v : JsValue) (a : Address) :
  AddressSchema v = ParseSuccess a -> addressWellFormed a = true.
Proof.
  unfold AddressSchema, z_object. destruct v; try discriminate. intros H.
  invert_zap H. injection H as <-. unfold addressWellFormed. simpl.
  apply z_string_min1_inv in Ha5, Ha2, Ha0. apply z_string_length_inv in Ha.
  apply z_optional_max_inv in Ha1.
  destruct Ha5 as [_ ->], Ha2 as [_ ->], Ha0 as [_ ->], Ha as [_ ->]. now rewrite Ha1.
Qed.

Lemma PackageSchema_sound (v : JsValue) (p : Package) :
  PackageSchema v = ParseSuccess p -> packageWellFormed p = true.
Proof.
  unfold PackageSchema, z_object. destruct v; try discriminate. intros H.
  invert_zap H. injection H as <-. unfold packageWellFormed. simpl.
  apply z_number_positive_inv in Ha4. apply z_optional_positive_inv in Ha2, Ha1, Ha0.
  destruct Ha4 as [_ ->]. now rewrite Ha2, Ha1, Ha0.
Qed.

Lemma parseItems_sound (items : list JsValue) :
  forall (i : nat) (ps : list Package),
    parseItems PackageSchema i items = ParseSuccess ps ->
    forallb packageWellFormed ps = true /\ List.length ps = List.length items.
Proof.
  induction items as [|v items IH]; intros i ps; simpl.
  - intros [= <-]. auto.
  - destruct (atKey (indexString i) (PackageSchema v)) as [p|] eqn:Hp;
      destruct (parseItems PackageSchema (S i) items) as [l|] eqn:Hl;
      simpl; try discriminate.
    intros [= <-]. apply atKey_success_inv in Hp.
    apply PackageSchema_sound in Hp. destruct (IH _ _ Hl) as [Hall Hlen].
    simpl. now rewrite Hp, Hall, Hlen.
Qed.

(** X4. A request that passes [RateRequestSchema] is well formed: both
    addresses have a non-empty line1, city and postal code, a country code of
    exactly two characters and a state code of at most ten; there is at least
    one package, every weight and every given dimension is a positive number,
    and a service code has at most ten characters. *)
Theorem RateRequestSchema_sound (v : JsValue) (r : RateRequest) :
  RateRequestSchema v = ParseSuccess r -> rateRequestWellFormed r = true.
Proof.
  unfold RateRequestSchema, z_object. destruct v; try discriminate. intros H.
  invert_zap H. injection H as <-. unfold rateRequestWellFormed. simpl.
  apply AddressSchema_sound in Ha2, Ha1. apply z_optional_max_inv in Ha.
  rewrite Ha2, Ha1, Ha. simpl.
  unfold z_array_min1 in Ha0. destruct (getField "packages" fields); try discriminate.
  destruct items as [|x items]; [discriminate|].
  apply parseItems_sound in Ha0. destruct Ha0 as [Hall Hlen].
  rewrite Hall. destruct a0; [discriminate|reflexivity].
Qed.

Lemma RateRequestSchema_sound_witness : rateRequestWellFormed sampleRateRequest = true.
Proof.
  apply (RateRequestSchema_sound SAMPLE_RATE_REQUEST sampleRateRequest).
  vm_compute. reflexivity.
Defined.

Lemma z_string_min1_accepts (msg s : string) :
  nonEmpty s = true -> z_string_min1 msg (JStr s) = ParseSuccess s.
Proof. destruct s; [discriminate|reflexivity]. Qed.

Lemma z_optional_string_accepts (o : option string) :
  z_optional z_string (optionalString o) = ParseSuccess o.
Proof. now destruct o. Qed.

Lemma z_optional_max_accepts (n : nat) (o : option string) :
  optionalWithin n o = true -> z_optional (z_string_max n) (optionalString o) = ParseSuccess o.
Proof. destruct o as [s|]; simpl; [|reflexivity]. now intros ->. Qed.

Lemma z_string_length_accepts (n : nat) (msg s : string) :
  (String.length s =? n)%nat = true -> z_string_length n msg (JStr s) = ParseSuccess s.
Proof. simpl. now intros ->. Qed.

Lemma AddressSchema_complete (a : Address) :
  addressWellFormed a = true -> AddressSchema (addressToJson a) = ParseSuccess a.
Proof.
  unfold addressWellFormed. intros H.
  repeat (apply andb_true_iff in H; destruct H as [H ?]).
  unfold AddressSchema, addressToJson, z_object, field.
  cbn [getField String.eqb Ascii.eqb Bool.eqb].
  rewrite !z_string_min1_accepts, !z_optional_string_accepts by assumption.
  rewrite z_optional_max_accepts, z_string_length_accepts by assumption.
  now destruct a.
Qed.

Lemma PackageSchema_complete (p : Package) :
  packageWellFormed p = true -> PackageSchema (packageToJson p) = ParseSuccess p.
Proof.
  unfold packageWellFormed. intros H.
  repeat (apply andb_true_iff in H; destruct H as [H ?]).
  unfold PackageSchema, packageToJson, z_object, field.
  cbn [getField String.eqb Ascii.eqb Bool.eqb].
  rewrite z_number_positive_accepts by assumption.
  rewrite !optional_positive_accepts by assumption.
  destruct p as [wt [] l w h []]; reflexivity.
Qed.

Lemma parseItems_complete (ps : list Package) (i : nat) :
  forallb packageWellFormed ps = true ->
  parseItems PackageSchema i (map packageToJson ps) = ParseSuccess ps.
Proof.
  revert i. induction ps as [|p ps IH]; intros i H; [reflexivity|].
  simpl in H. apply andb_true_iff in H. destruct H as [Hp Hps].
  cbn [map parseItems].
  rewrite (PackageSchema_complete p Hp), (IH _ Hps). reflexivity.
Qed.

(** X5. Validation gives back what was written: a well-formed request,
    written out as the plain object a caller passes, passes
    [RateRequestSchema], and the validated request is the request itself, with
    nothing dropped, added or reordered. *)
Theorem RateRequestSchema_round_trip (r : RateRequest) :
  rateRequestWellFormed r = true ->
  RateRequestSchema (rateRequestToJson r) = ParseSuccess r.
Proof.
  unfold rateRequestWellFormed. intros H.
  do 4 (apply andb_true_iff in H; destruct H as [H ?]).
  unfold RateRequestSchema, rateRequestToJson, z_object, field.
  cbn [getField String.eqb Ascii.eqb Bool.eqb].
  rewrite !AddressSchema_complete, z_optional_max_accepts by assumption.
  destruct r as [o d ps sc]. simpl in *.
  destruct ps as [|p ps]; [discriminate|].
  unfold z_array_min1. cbn [map].
  change (packageToJson p :: map packageToJson ps) with (map packageToJson (p :: ps)).
  rewrite parseItems_complete by assumption. reflexivity.
Qed.

Lemma RateRequestSchema_round_trip_witness :
  RateRequestSchema (rateRequestToJson sampleRateRequest) = ParseSuccess sampleRateRequest.
Proof. apply (RateRequestSchema_round_trip sampleRateRequest). reflexivity. Defined.

Lemma zap_fails_right {A B : Type} (f : SafeParse (A -> B)) (x : SafeParse A)
  (j : list ZodIssue) (i : ZodIssue) :
  x = ParseFailure j -> In i j ->
  exists iss, zap f x = ParseFailure iss /\ In i iss.
Proof.
  intros -> Hin. destruct f as [g|k]; simpl; eexists; split; try reflexivity; auto.
  apply in_or_app. now right.
Qed.

Lemma zap_fails_left {A B : Type} (f : SafeParse (A -> B)) (x : SafeParse A)
  (j : list ZodIssue) (i : ZodIssue) :
  f = ParseFailure j -> In i j ->
  exists iss, zap f x = ParseFailure iss /\ In i iss.
Proof.
  intros -> Hin. destruct x as [a|k]; simpl; eexists; split; try reflexivity; auto.
  apply in_or_app. now left.
Qed.

(** X6. A request object whose [packages] is an empty array is rejected by
    [RateRequestSchema] whatever else it holds, and the issue
    "At least one package is required" at path [packages] is among the
    issues reported. *)
Theorem empty_packages_rejected (fields : list (string * JsValue)) :
  getField "packages" fields = JArr [] ->
  exists iss,
    RateRequestSchema (JObj fields) = ParseFailure iss /\
    In {| path := ["packages"]; issueMessage := "At least one package is required" |} iss.
Proof.
  intros Hp. unfold RateRequestSchema, z_object.
  assert (Hf : field fields "packages"
                 (z_array_min1 PackageSchema "At least one package is required")
               = ParseFailure [{| path := ["packages"];
                                  issueMessage := "At least one package is required" |}])
    by (unfold field; rewrite Hp; reflexivity).
  destruct (zap_fails_right
              (Build_RateRequest <$> field fields "origin" AddressSchema
                 <*> field fields "destination" AddressSchema)%zod
              _ _ _ Hf (or_introl eq_refl)) as (iss1 & H1 & Hin1).
  destruct (zap_fails_left _ (field fields "serviceCode" (z_optional (z_string_max 10)))
              _ _ H1 Hin1) as (iss & H & Hin).
  exists iss. split; assumption.
Qed.

Lemma empty_packages_rejected_witness :
  exists iss,
    RateRequestSchema (JObj [("origin", sampleAddress "x" "x" "x");
                             ("destination", sampleAddress "y" "y" "y");
                             ("packages", JArr [])]) = ParseFailure iss /\
    In {| path := ["packages"]; issueMessage := "At least one package is required" |} iss.
Proof.
  apply (empty_packages_rejected [("origin", sampleAddress "x" "x" "x");
                                  ("destination", sampleAddress "y" "y" "y");
                                  ("packages", JArr [])]).
  reflexivity.
Defined.

(** ** Dispatcher: the registry and the checks before dispatch *)

Lemma mapGet_mapSet_same {V : Type} (k : string) (v : V) (m : list (string * V)) :
  mapGet k (mapSet k v m) = Some v.
Proof.
  induction m as [|[k' v'] m IH]; simpl.
  - now rewrite String.eqb_refl.
  - destruct (String.eqb k k') eqn:E; simpl; rewrite E; [reflexivity|exact IH].
Qed.

Lemma mapGet_mapSet_other {V : Type} (k k' : string) (v : V) (m : list (string * V)) :
  k <> k' -> mapGet k (mapSet k' v m) = mapGet k m.
Proof.
  intros Hne. induction m as [|[k0 v0] m IH]; simpl.
  - destruct (String.eqb_spec k k'); [contradiction|reflexivity].
  - destruct (String.eqb_spec k' k0) as [->|Hk]; simpl.
    + destruct (String.eqb_spec k k0); [contradiction|reflexivity].
    + destruct (String.eqb k k0); [reflexivity|exact IH].
Qed.

Lemma mapSet_keys {V : Type} (k : string) (v : V) (m : list (string * V)) :
  map fst (mapSet k v m) = if existsb (String.eqb k) (map fst m)
                           then map fst m else (map fst m ++ [k])%list.
Proof.
  induction m as [|[k' v'] m IH]; simpl; [reflexivity|].
  destruct (String.eqb k k'); simpl; [reflexivity|].
  rewrite IH. now destruct (existsb (String.eqb k) (map fst m)).
Qed.

Lemma mapSet_NoDup {V : Type} (k : string) (v : V) (m : list (string * V)) :
  NoDup (map fst m) -> NoDup (map fst (mapSet k v m)).
Proof.
  intros H. rewrite mapSet_keys.
  destruct (existsb (String.eqb k) (map fst m)) eqn:E; [assumption|].
  apply NoDup_app; [assumption | repeat constructor; auto |].
  intros x Hx [->|[]].
  assert (existsb (String.eqb x) (map fst m) = true)
    by (apply existsb_exists; exists x; split; [assumption|apply String.eqb_refl]).
  congruence.
Qed.

Lemma mapGet_In {V : Type} (k : string) (v : V) (m : list (string * V)) :
  mapGet k m = Some v -> In (k, v) m.
Proof.
  induction m as [|[k' v'] m IH]; simpl; [discriminate|].
  destruct (String.eqb_spec k k') as [->|]; [intros [= ->]; now left|auto].
Qed.

Lemma In_mapGet {V : Type} (k : string) (v : V) (m : list (string * V)) :
  NoDup (map fst m) -> In (k, v) m -> mapGet k m = Some v.
Proof.
  induction m as [|[k' v'] m IH]; simpl; [contradiction|].
  intros Hnd [[= -> ->]|Hin].
  - now rewrite String.eqb_refl.
  - inversion Hnd as [|? ? Hnot Hnd']; subst.
    destruct (String.eqb_spec k k') as [->|]; [|auto].
    exfalso. apply Hnot. apply in_map_iff. exists (k', v). auto.
Qed.

Lemma mapSet_In_inv {V : Type} (k : string) (v : V) (m : list (string * V)) (e : string * V) :
  In e (mapSet k v m) -> e = (k, v) \/ In e m.
Proof.
  induction m as [|[k' v'] m IH]; simpl.
  - intros [<-|[]]. now left.
  - destruct (String.eqb_spec k k') as [->|]; simpl.
    + intros [<-|H]; auto.
    + intros [<-|H]; auto. destruct (IH H); auto.
Qed.

(** The registry built by the constructor: keys are distinct and every
    carrier sits under its own id. *)
Lemma registry_invariant (cs : list CarrierIntegration) (m : list (string * CarrierIntegration)) :
  NoDup (map fst m) ->
  (forall e, In e m -> fst e = carrierId (snd e)) ->
  let m' := fold_left (fun acc c => mapSet (carrierId c) c acc) cs m in
  NoDup (map fst m') /\ (forall e, In e m' -> fst e = carrierId (snd e)).
Proof.
  revert m. induction cs as [|c cs IH]; intros m Hnd Hid; simpl; [auto|].
  apply IH.
  - now apply mapSet_NoDup.
  - intros e He. destruct (mapSet_In_inv _ _ _ _ He) as [->|H]; [reflexivity|auto].
Qed.

Lemma find_app_last {A : Type} (f : A -> bool) (l : list A) (x : A) :
  find f (l ++ [x]) = match find f l with
                      | Some y => Some y
                      | None => if f x then Some x else None
                      end.
Proof.
  induction l as [|y l IH]; simpl; [reflexivity|].
  destruct (f y); [reflexivity|exact IH].
Qed.

Lemma registry_lookup (cs : list CarrierIntegration) (id : string) :
  forall m : list (string * CarrierIntegration),
    mapGet id (fold_left (fun acc c => mapSet (carrierId c) c acc) cs m)
    = match find (fun c => String.eqb id (carrierId c)) (rev cs) with
      | Some c => Some c
      | None => mapGet id m
      end.
Proof.
  induction cs as [|c cs IH]; intros m; simpl; [reflexivity|].
  rewrite IH, find_app_last.
  destruct (find (fun c0 => String.eqb id (carrierId c0)) (rev cs)); [reflexivity|].
  destruct (String.eqb_spec id (carrierId c)) as [->|Hne].
  - apply mapGet_mapSet_same.
  - now apply mapGet_mapSet_other.
Qed.

(** X7. The registry of the dispatcher resolves an id to the carrier
    registered last under that id, and to nothing when no registered carrier
    has the id: an earlier carrier with the same id is replaced. *)
Theorem registry_last_registration_wins (cs : list CarrierIntegration) (id : string) :
  mapGet id (carriers (newCarrierIntegrationService cs))
  = find (fun c => String.eqb id (carrierId c)) (rev cs).
Proof.
  unfold newCarrierIntegrationService. simpl. rewrite registry_lookup.
  now destruct (find _ (rev cs)).
Qed.

(** X8. [getCarriersWithRates] lists exactly the ids that [getRates]
    resolves to a carrier supporting the rate operation, each id once. *)
Theorem carriers_with_rates_exact (cs : list CarrierIntegration) (id : string) :
  let svc := newCarrierIntegrationService cs in
  (In id (getCarriersWithRates svc) <->
   exists c, mapGet id (carriers svc) = Some c /\ supports rate c = true) /\
  NoDup (getCarriersWithRates svc).
Proof.
  cbv zeta. unfold newCarrierIntegrationService, getCarriersWithRates. simpl.
  destruct (registry_invariant cs [] (NoDup_nil _) (fun e (H : In e []) => match H with end))
    as [Hnd Hid].
  set (m := fold_left (fun acc c => mapSet (carrierId c) c acc) cs []) in *.
  assert (Hmap : map (fun e => carrierId (snd e)) (filter (fun e => supports rate (snd e)) m)
                 = map fst (filter (fun e => supports rate (snd e)) m)).
  { apply map_ext_in. intros e He. apply filter_In in He. symmetry. now apply Hid. }
  rewrite Hmap. split; [split|].
  - intros Hin. apply in_map_iff in Hin. destruct Hin as ([k c] & <- & He).
    apply filter_In in He. destruct He as [He Hs]. simpl in *.
    exists c. split; [now apply In_mapGet|assumption].
  - intros (c & Hget & Hs). apply in_map_iff. exists (id, c). split; [reflexivity|].
    apply filter_In. split; [now apply mapGet_In|assumption].
  - clear Hmap Hid. induction m as [|[k c] m IH]; simpl; [constructor|].
    inversion Hnd as [|? ? Hnot Hnd']; subst.
    destruct (supports rate c); simpl; [|auto].
    constructor; [|auto]. intros Hin. apply Hnot.
    apply in_map_iff in Hin. destruct Hin as (e & <- & He). apply filter_In in He.
    apply in_map. apply He.
Qed.

(** X9. Before the carrier is touched, [getRates] checks the id, the rate
    capability and the request: with an unknown id, a carrier that does not
    support rate, or a request the schema rejects, it fails with
    VALIDATION_ERROR and leaves the world as it was, so the carrier is not
    executed and nothing is sent; for an unknown id the context lists the
    registered ids. *)
Theorem dispatcher_checks_before_dispatch
  (svc : CarrierIntegrationService) (id : string) (request : JsValue) (w : World) :
  (mapGet id (carriers svc) = None \/
   (exists c, mapGet id (carriers svc) = Some c /\ supports rate c = false) \/
   (exists iss, RateRequestSchema request = ParseFailure iss)) ->
  exists e,
    getRates svc id request w = (Throw (ThrownCIE e), w) /\
    code e = VALIDATION_ERROR /\
    statusCode e = None /\
    (mapGet id (carriers svc) = None ->
     context e = Some [("availableCarriers", JArr (map (fun k => JStr (fst k)) (carriers svc)))]).
Proof.
  intros H. unfold getRates. unfold_js.
  destruct (mapGet id (carriers svc)) as [c|] eqn:Hget.
  - destruct (supports rate c) eqn:Hs; simpl.
    + destruct H as [H|[(c' & [= <-] & H)|(iss & H)]]; try discriminate; [congruence|].
      rewrite H. eexists. repeat split. discriminate.
    + eexists. repeat split. discriminate.
  - eexists. repeat split.
Qed.

Lemma dispatcher_checks_before_dispatch_witness :
  exists e,
    getRates (newCarrierIntegrationService [sampleUps happyTransport]) "fedex"
      SAMPLE_RATE_REQUEST emptyWorld = (Throw (ThrownCIE e), emptyWorld) /\
    code e = VALIDATION_ERROR.
Proof.
  destruct (dispatcher_checks_before_dispatch
              (newCarrierIntegrationService [sampleUps happyTransport]) "fedex"
              SAMPLE_RATE_REQUEST emptyWorld (or_introl eq_refl)) as (e & He & Hc & _).
  exists e. split; assumption.
Defined.

(** X10. Whatever the carrier does, [getRates] raises structured errors
    only: no thrown value that is not a [CarrierIntegrationError] leaves the
    dispatcher. *)
Theorem dispatcher_raises_structured_only
  (svc : CarrierIntegrationService) (id : string) (request : JsValue) (w : World) (t : Thrown) :
  fst (getRates svc id request w) = Throw t -> isCarrierIntegrationError t = true.
Proof.
  unfold getRates. unfold_js.
  destruct (mapGet id (carriers svc)) as [c|]; [|now intros [= <-]].
  destruct (supports rate c); simpl; [|now intros [= <-]].
  destruct (RateRequestSchema request) as [r|iss]; [|now intros [= <-]].
  destruct (execute c (RateInput r) w) as [[[res|op v]|[e|raw]] w']; simpl;
    try discriminate; now intros [= <-].
Qed.

Lemma dispatcher_raises_structured_only_witness :
  exists t,
    fst (getRates (newCarrierIntegrationService [sampleUps failingTransport])
           "ups" SAMPLE_RATE_REQUEST emptyWorld) = Throw t
    /\ isCarrierIntegrationError t = true.
Proof.
  eexists. split; [vm_compute; reflexivity|].
  eapply (dispatcher_raises_structured_only
            (newCarrierIntegrationService [sampleUps failingTransport])
            "ups" SAMPLE_RATE_REQUEST emptyWorld).
  vm_compute. reflexivity.
Defined.

(** ** Wire mapper: request side *)

(** X11. The address block never carries an empty address line: AddressLine
    is either absent or a list of one to three non-empty lines in the order
    line1, line2, line3 with the gaps closed; for an address with a non-empty
    line1, as every validated address has, it is present and starts with
    line1. *)
Theorem address_lines_never_empty (addr : Address) :
  match AddressLine (toUpsAddress addr) with
  | Some ls =>
      ls <> [] /\ (List.length ls <= 3)%nat /\ Forall (fun l => nonEmpty l = true) ls
  | None => nonEmpty (line1 addr) = false
  end /\
  (nonEmpty (line1 addr) = true ->
   exists rest, AddressLine (toUpsAddress addr) = Some (line1 addr :: rest)) /\
  (addressWellFormed addr = true -> AddressLine (toUpsAddress addr) <> None).
Proof.
  assert (Hstart : nonEmpty (line1 addr) = true ->
                   exists rest, AddressLine (toUpsAddress addr) = Some (line1 addr :: rest)).
  { destruct addr as [[|c l1] l2 l3 ? ? ? ?]; simpl; [discriminate|]. eauto. }
  split; [|split; [exact Hstart|]].
  - destruct addr as [[|c1 l1] [[|c2 l2]|] [[|c3 l3]|] ? ? ? ?]; simpl;
      try reflexivity;
      (split; [discriminate|split; [lia|repeat constructor]]).
  - intros H. unfold addressWellFormed in H.
    do 4 (apply andb_true_iff in H; destruct H as [H _]).
    destruct (Hstart H) as (rest & ->). discriminate.
Qed.

Lemma address_lines_never_empty_witness :
  exists rest, AddressLine (toUpsAddress addressWithGap) = Some ("123 Origin St" :: rest).
Proof.
  apply (proj1 (proj2 (address_lines_never_empty addressWithGap))). reflexivity.
Defined.

(** X12. The request body has one package per package of the request, in the
    same order, and names a service exactly when the request has a non-empty
    service code: an empty service code, which the validation lets through,
    is left out, so the carrier is asked for all services. *)
Theorem request_body_shape (numberToString : JsNumber -> string) (req : RateRequest) :
  let built := buildUpsRateRequest numberToString req in
  (forall c, Shipment_Service built = Some c <->
             req_serviceCode req = Some c /\ nonEmpty c = true) /\
  (req_serviceCode req = Some "" -> Shipment_Service built = None) /\
  List.length (Package_ built) = List.length (packages req) /\
  (forall i p, nth_error (packages req) i = Some p ->
               nth_error (Package_ built) i = Some (toUpsPackage numberToString p)).
Proof.
  cbv zeta. unfold buildUpsRateRequest. simpl. split; [|split; [|split]].
  - intros c. destruct (req_serviceCode req) as [[|a s]|]; simpl; split.
    + discriminate.
    + intros [[= <-] H]. discriminate.
    + intros [= <-]. auto.
    + now intros [[= <-] _].
    + discriminate.
    + now intros [[=] _].
  - now intros ->.
  - apply length_map.
  - intros i p H. now apply map_nth_error.
Qed.

Lemma request_body_shape_witness :
  rateRequestWellFormed requestWithEmptyServiceCode = true /\
  Shipment_Service (buildUpsRateRequest noText requestWithEmptyServiceCode) = None.
Proof.
  split; [reflexivity|].
  apply (proj1 (proj2 (request_body_shape noText requestWithEmptyServiceCode))).
  reflexivity.
Defined.

(** ** Wire mapper: response side *)

Lemma UPS_SERVICE_NAMES_lookup (c n : string) :
  In (c, n) UPS_SERVICE_NAMES -> enumLookup c UPS_SERVICE_NAMES = Some n.
Proof.
  intros H. simpl in H.
  repeat (destruct H as [H|H]; [injection H as <- <-; reflexivity|]).
  contradiction.
Qed.

Lemma enumLookup_None {A : Type} (c : string) (l : list (string * A)) :
  ~ In c (map fst l) -> enumLookup c l = None.
Proof.
  induction l as [|[k a] l IH]; simpl; [reflexivity|].
  intros H. destruct (String.eqb_spec c k) as [->|]; [exfalso; auto|]. apply IH. auto.
Qed.

Lemma isObjectPrototypeMember_In (k : string) :
  isObjectPrototypeMember k = true <-> In k OBJECT_PROTOTYPE_MEMBERS.
Proof.
  unfold isObjectPrototypeMember. rewrite existsb_exists. split.
  - intros (x & Hin & Heq). apply String.eqb_eq in Heq. now subst.
  - intros Hin. exists k. split; [assumption | apply String.eqb_refl].
Qed.

Lemma upsServiceName_known (c n : string) :
  In (c, n) UPS_SERVICE_NAMES -> upsServiceName c = NameString n.
Proof.
  intros Hin. unfold upsServiceName, readServiceNames.
  now rewrite (UPS_SERVICE_NAMES_lookup c n Hin).
Qed.

Lemma upsServiceName_unknown (c : string) :
  ~ In c (map fst UPS_SERVICE_NAMES) ->
  upsServiceName c = if isObjectPrototypeMember c then NameInherited c else NameString c.
Proof.
  intros Hnot. unfold upsServiceName, readServiceNames.
  rewrite (enumLookup_None c _ Hnot). now destruct (isObjectPrototypeMember c).
Qed.

Lemma upsServiceName_string (c : string) :
  isObjectPrototypeMember c = false -> isNameString (upsServiceName c) = true.
Proof.
  intros Hc. unfold upsServiceName, readServiceNames.
  destruct (enumLookup c UPS_SERVICE_NAMES); [reflexivity|]. now rewrite Hc.
Qed.

(** X13. The display name of a quote: the carrier's own name when it sends
    one, even an empty one; otherwise the name the table gives for the
    service code, and "UNKNOWN" when the carrier sent no code either. For a
    code the table does not know the name is the code itself, unless the code
    names a member of [Object.prototype] ("constructor", "toString", ...):
    then the read of the table finds the inherited member, and the field
    declared a string holds that member instead of a string. *)
Theorem service_name_fallback (carrierId : string) (s : UpsRatedShipment) :
  let q := toRateQuote carrierId s in
  (forall n, andThen (Service s) Service_Name = Some n -> serviceName q = NameString n) /\
  (andThen (Service s) Service_Name = None ->
   (serviceCodeOf s = None -> serviceName q = NameString "UNKNOWN") /\
   (forall c n, serviceCodeOf s = Some c -> In (c, n) UPS_SERVICE_NAMES ->
                serviceName q = NameString n) /\
   (forall c, serviceCodeOf s = Some c -> ~ In c (map fst UPS_SERVICE_NAMES) ->
              ~ In c OBJECT_PROTOTYPE_MEMBERS -> serviceName q = NameString c) /\
   (forall c, serviceCodeOf s = Some c -> In c OBJECT_PROTOTYPE_MEMBERS ->
              serviceName q = NameInherited c)).
Proof.
  cbv zeta. unfold toRateQuote, serviceCodeOf. cbn [serviceName].
  split.
  - now intros n ->.
  - intros ->. split; [|split; [|split]].
    + now intros ->.
    + intros c n -> Hin. cbn [orElse]. now apply upsServiceName_known.
    + intros c -> Hnot Hmem. cbn [orElse]. rewrite (upsServiceName_unknown c Hnot).
      destruct (isObjectPrototypeMember c) eqn:E; [|reflexivity].
      now apply isObjectPrototypeMember_In in E.
    + intros c -> Hmem. cbn [orElse].
      assert (Hnot : ~ In c (map fst UPS_SERVICE_NAMES)).
      { intros Hin. revert Hmem. simpl in Hin. simpl.
        intuition (subst; discriminate). }
      rewrite (upsServiceName_unknown c Hnot).
      apply isObjectPrototypeMember_In in Hmem. now rewrite Hmem.
Qed.

Lemma service_name_fallback_witness :
  serviceName (toRateQuote "ups"
                 {| Service := Some {| Service_Code := Some "03"; Service_Name := None |};
                    TotalCharges := None; GuaranteedDelivery := None |}) = NameString "Ground"
  /\ serviceName (toRateQuote "ups"
                 {| Service := Some {| Service_Code := Some "constructor"; Service_Name := None |};
                    TotalCharges := None; GuaranteedDelivery := None |})
     = NameInherited "constructor".
Proof.
  split.
  - apply (proj1 (proj2 (proj2 (service_name_fallback "ups"
             {| Service := Some {| Service_Code := Some "03"; Service_Name := None |};
                TotalCharges := None; GuaranteedDelivery := None |}) eq_refl)) "03" "Ground").
    + reflexivity.
    + simpl. tauto.
  - apply (proj2 (proj2 (proj2 (proj2 (service_name_fallback "ups"
             {| Service := Some {| Service_Code := Some "constructor"; Service_Name := None |};
                TotalCharges := None; GuaranteedDelivery := None |}) eq_refl))) "constructor").
    + reflexivity.
    + simpl. tauto.
Defined.

Lemma parseItems_length {A : Type} (s : Schema A) (items : list JsValue) :
  forall (i : nat) (l : list A),
    parseItems s i items = ParseSuccess l -> List.length l = List.length items.
Proof.
  induction items as [|v items IH]; intros i l; simpl.
  - now intros [= <-].
  - destruct (atKey (indexString i) (s v)) as [a|]; 
      destruct (parseItems s (S i) items) as [l'|] eqn:Hl; simpl; try discriminate.
    intros [= <-]. simpl. f_equal. eauto.
Qed.

(** X14. A successful parse yields one quote per element of the body's
    RatedShipment array, every quote carries the carrier id the parse was
    called with, and the response has no request id. *)
Theorem parse_one_quote_per_shipment
  (fields rr : list (string * JsValue)) (items : list JsValue)
  (carrierId : string) (r : RateResponse) :
  parseUpsRateResponse (JObj fields) carrierId = Return r ->
  getField "RateResponse" fields = JObj rr ->
  getField "RatedShipment" rr = JArr items ->
  List.length (quotes r) = List.length items /\
  Forall (fun q => carrier q = carrierId) (quotes r) /\
  requestId r = None.
Proof.
  intros H HRR HRS. apply parseUpsRateResponse_Return in H.
  destruct H as (parsed & inner & Hschema & Hinner & _ & ->). simpl.
  split; [|split; [|reflexivity]].
  - rewrite length_map.
    unfold UpsRateResponseSchema, z_object in Hschema.
    apply zap_success_inv in Hschema. destruct Hschema as (g & a & [= <-] & Ha & ->).
    apply field_success_inv in Ha. rewrite HRR in Ha. simpl in Hinner. subst a.
    unfold z_optional, UpsRateResponseInnerSchema, z_object in Ha.
    destruct (zap _ _) as [inner'|] eqn:Hz in Ha; [|discriminate].
    injection Ha as ->.
    apply zap_success_inv in Hz. destruct Hz as (g & l & Hg & Hl & ->).
    apply zap_success_inv in Hg. destruct Hg as (g0 & resp & [= <-] & _ & ->).
    apply field_success_inv in Hl. rewrite HRS in Hl. simpl in Hl.
    destruct (parseItems UpsRatedShipmentSchema 0 items) as [ships|] eqn:Hp; [|discriminate].
    injection Hl as <-. simpl. now apply parseItems_length in Hp.
  - apply Forall_forall. intros q Hq. apply in_map_iff in Hq.
    destruct Hq as (s & <- & _). reflexivity.
Qed.

Lemma parse_one_quote_per_shipment_witness :
  exists r,
    parseUpsRateResponse UPS_RATE_SUCCESS "ups" = Return r /\
    List.length (quotes r) = 2%nat.
Proof.
  exists {| quotes := [quoteGround; quoteExpress]; requestId := None |}.
  assert (H : parseUpsRateResponse UPS_RATE_SUCCESS "ups"
              = Return {| quotes := [quoteGround; quoteExpress]; requestId := None |})
    by (vm_compute; reflexivity).
  split; [exact H|].
  apply (parse_one_quote_per_shipment _ _ _ "ups" _ H eq_refl eq_refl).
Defined.

(** X15. The parse step fails in two ways only, both structured and without
    an HTTP status: MALFORMED_RESPONSE without a carrier code, or
    CARRIER_ERROR with the carrier's status code, which is then neither empty
    nor "1". A body that is not an object, and an object without a
    RateResponse, are MALFORMED_RESPONSE. *)
Theorem parse_failure_kinds (body : JsValue) (carrierId : string) :
  (forall t, parseUpsRateResponse body carrierId = Throw t ->
     exists e, t = ThrownCIE e /\ statusCode e = None /\ cause e = None /\
               ((code e = MALFORMED_RESPONSE /\ carrierCode e = None) \/
                (code e = CARRIER_ERROR /\
                 exists c, carrierCode e = Some c /\ c <> "" /\ c <> "1"))) /\
  ((forall fields, body <> JObj fields) \/
   (exists fields, body = JObj fields /\ getField "RateResponse" fields = JUndefined) ->
   exists e, parseUpsRateResponse body carrierId = Throw (ThrownCIE e) /\
             code e = MALFORMED_RESPONSE).
Proof.
  split.
  - intros t. unfold parseUpsRateResponse.
    destruct (UpsRateResponseSchema body) as [parsed|iss].
    + destruct (RateResponse_ parsed) as [inner|].
      * destruct (failingStatus _) as [c|] eqn:F; [|discriminate].
        intros [= <-]. eexists. repeat split. right. split; [reflexivity|].
        exists c. split; [reflexivity|].
        unfold failingStatus in F.
        destruct (andThen _ Status_Code) as [c'|]; [|discriminate].
        destruct (String.eqb_spec c' ""), (String.eqb_spec c' "1"); simpl in F;
          try discriminate. injection F as <-. auto.
      * intros [= <-]. eexists. repeat split. now left.
    + intros [= <-]. eexists. repeat split. now left.
  - intros [Hno|(fields & -> & Hmiss)].
    + unfold parseUpsRateResponse, UpsRateResponseSchema, z_object.
      destruct body; try (eexists; split; reflexivity).
      exfalso. now apply (Hno fields).
    + unfold parseUpsRateResponse, UpsRateResponseSchema, z_object, field.
      rewrite Hmiss. simpl. eexists. split; reflexivity.
Qed.

Lemma parse_failure_kinds_witness :
  exists e, parseUpsRateResponse JNull "ups" = Throw (ThrownCIE e) /\
            code e = MALFORMED_RESPONSE.
Proof.
  apply (proj2 (parse_failure_kinds JNull "ups")). left. intros fields. discriminate.
Defined.

(** X16. A body the schema accepts whose status code is neither empty nor
    "1" is a CARRIER_ERROR carrying that code, with the carrier's description
    as message, or "UPS error: <code>" when there is none; rated shipments in
    such a body are not turned into quotes. *)
Theorem carrier_status_is_carrier_error
  (body : JsValue) (carrierId : string) (parsed : UpsRateResponseBody)
  (inner : UpsRateResponseInner) (c : string) :
  UpsRateResponseSchema body = ParseSuccess parsed ->
  RateResponse_ parsed = Some inner ->
  andThen (andThen (Response inner) ResponseStatus) Status_Code = Some c ->
  c <> "" -> c <> "1" ->
  exists e,
    parseUpsRateResponse body carrierId = Throw (ThrownCIE e) /\
    code e = CARRIER_ERROR /\
    carrierCode e = Some c /\
    message e = orElse (andThen (andThen (Response inner) ResponseStatus) Status_Description)
                       ("UPS error: " ++ c).
Proof.
  intros Hs Hi Hc Hne H1. unfold parseUpsRateResponse. rewrite Hs, Hi.
  unfold failingStatus. rewrite Hc.
  destruct (String.eqb_spec c ""); [contradiction|].
  destruct (String.eqb_spec c "1"); [contradiction|]. simpl.
  eexists. repeat split.
Qed.

Lemma carrier_status_is_carrier_error_witness :
  exists e,
    parseUpsRateResponse bodyWithCarrierError "ups" = Throw (ThrownCIE e) /\
    code e = CARRIER_ERROR /\
    carrierCode e = Some "0" /\
    message e = "Invalid shipper".
Proof.
  destruct (carrier_status_is_carrier_error bodyWithCarrierError "ups"
              _ _ "0" eq_refl eq_refl eq_refl) as (e & He & Hc & Hcc & Hm);
    [discriminate | discriminate |].
  exists e. repeat split; assumption.
Defined.

Lemma RateQuoteSchema_round_trip (carrierId : string) (s : UpsRatedShipment) (name : string) :
  serviceName (toRateQuote carrierId s) = NameString name ->
  exists v,
    rateQuoteToJson (toRateQuote carrierId s) = Some v /\
    RateQuoteSchema v = ParseSuccess (toRateQuote carrierId s).
Proof.
  intros Hn. unfold rateQuoteToJson. rewrite Hn. eexists. split; [reflexivity|].
  unfold RateQuoteSchema, z_object, field.
  cbn [getField String.eqb Ascii.eqb Bool.eqb z_string atKey].
  pose proof (totalCharge_not_NaN carrierId s) as Hc.
  pose proof (transitDays_not_NaN carrierId s) as Ht.
  destruct (toRateQuote carrierId s) as [ca sc sn tc cc td cs]. simpl in *. subst sn.
  destruct tc; [contradiction| |];
    (destruct td as [[| |]|]; [exfalso; now apply (Ht NaN)| | |];
     destruct cs; reflexivity).
Qed.

Lemma parseItems_quotes (carrierId : string) (ships : list UpsRatedShipment) (i : nat) :
  (forall q, In q (map (toRateQuote carrierId) ships) -> isNameString (serviceName q) = true) ->
  exists items,
    allSome (map rateQuoteToJson (map (toRateQuote carrierId) ships)) = Some items /\
    parseItems RateQuoteSchema i items = ParseSuccess (map (toRateQuote carrierId) ships).
Proof.
  revert i. induction ships as [|s ships IH]; intros i Hall.
  - exists []. split; reflexivity.
  - destruct (IH (S i)) as (items & Hitems & Hparse).
    { intros q Hq. apply Hall. now right. }
    assert (Hs : isNameString (serviceName (toRateQuote carrierId s)) = true)
      by (apply Hall; now left).
    destruct (serviceName (toRateQuote carrierId s)) as [name|] eqn:Hname; [|discriminate].
    destruct (RateQuoteSchema_round_trip carrierId s name Hname) as (v & Hv & Hq).
    exists (v :: items). cbn [map allSome parseItems]. rewrite Hv, Hitems, Hq, Hparse.
    split; reflexivity.
Qed.

Lemma allSome_None_inherited (qs : list RateQuote) :
  allSome (map rateQuoteToJson qs) = None <->
  exists q, In q qs /\ isNameString (serviceName q) = false.
Proof.
  induction qs as [|q qs IH].
  - split; [discriminate | intros (q & [] & _)].
  - cbn [map allSome]. unfold rateQuoteToJson at 1.
    destruct (serviceName q) as [name|] eqn:Hn.
    + destruct (allSome (map rateQuoteToJson qs)) as [items|]; cbn [option_map].
      * split; [discriminate|]. intros (q' & [<-|Hin] & Hq').
        -- rewrite Hn in Hq'. discriminate.
        -- assert (Habs : Some items = None) by (apply IH; now exists q').
           discriminate.
      * split; [|reflexivity]. intros _.
        destruct (proj1 IH eq_refl) as (q' & Hin & Hq'). exists q'. split; [now right|assumption].
    + split; [|reflexivity]. intros _. exists q. split; [now left|]. now rewrite Hn.
Qed.

(** X17. What the parse step returns satisfies the schema the domain model
    declares for a normalized response whenever every service name in it is a
    string: written out as a plain object, the RateResponse passes
    [RateResponseSchema] and validates to itself; in particular no quote
    holds a NaN. Every service name is a string when no service code in the
    response names a member of [Object.prototype]; a quote whose name is
    such a member has no plain-object form. *)
Theorem parsed_response_satisfies_domain_schema
  (body : JsValue) (carrierId : string) (r : RateResponse) :
  parseUpsRateResponse body carrierId = Return r ->
  ((forall q, In q (quotes r) -> isObjectPrototypeMember (serviceCode q) = false) ->
   forall q, In q (quotes r) -> isNameString (serviceName q) = true) /\
  ((forall q, In q (quotes r) -> isNameString (serviceName q) = true) ->
   exists v, rateResponseToJson r = Some v /\ RateResponseSchema v = ParseSuccess r) /\
  (rateResponseToJson r = None <->
   exists q, In q (quotes r) /\ isNameString (serviceName q) = false).
Proof.
  intros H. apply parseUpsRateResponse_Return in H.
  destruct H as (parsed & inner & _ & _ & _ & ->).
  cbn [quotes]. split; [|split].
  - intros Hcodes q Hq. specialize (Hcodes q Hq).
    apply in_map_iff in Hq. destruct Hq as (s & <- & _).
    unfold toRateQuote in *. cbn [serviceName serviceCode] in *.
    destruct (andThen (Service s) Service_Name); [reflexivity|].
    now apply upsServiceName_string.
  - intros Hall. destruct (parseItems_quotes carrierId _ 0%nat Hall) as (items & Hitems & Hparse).
    unfold rateResponseToJson. cbn [quotes requestId]. rewrite Hitems.
    eexists. split; [reflexivity|].
    unfold RateResponseSchema, z_object, field.
    cbn [getField String.eqb Ascii.eqb Bool.eqb z_array atKey optionalString].
    rewrite Hparse. reflexivity.
  - unfold rateResponseToJson. cbn [quotes requestId].
    rewrite <- allSome_None_inherited.
    destruct (allSome _); split; intros; congruence.
Qed.

Lemma parsed_response_satisfies_domain_schema_witness :
  exists v,
    rateResponseToJson {| quotes := [quoteGround; quoteExpress]; requestId := None |} = Some v /\
    RateResponseSchema v
    = ParseSuccess {| quotes := [quoteGround; quoteExpress]; requestId := None |}.
Proof.
  apply (proj1 (proj2 (parsed_response_satisfies_domain_schema UPS_RATE_SUCCESS "ups"
                         {| quotes := [quoteGround; quoteExpress]; requestId := None |}
                         eq_refl))).
  intros q [<-|[<-|[]]]; reflexivity.
Defined.

(** ** Token cache: what is stored and when it is replaced *)

Lemma Qnum_pos (q : Q) : (0 < q)%Q <-> 0 < Qnum q.
Proof. unfold Qlt. simpl. lia. Qed.

Lemma z_expires_in_positive (v : JsValue) (n : Z) :
  z_expires_in v = ParseSuccess n -> 0 < n.
Proof.
  destruct v as [| | |[|neg|q]| | |]; simpl; try discriminate.
  - intros [= <-]. lia.
  - destruct (isInteger q); destruct (0 <? Qnum q) eqn:E; try discriminate.
    intros [= <-]. apply Z.ltb_lt in E. apply Qnum_pos. rewrite Qred_correct.
    now apply Qnum_pos.
Qed.

Lemma token_schema_sound (v : JsValue) (data : UpsOAuthTokenResponse) :
  UpsOAuthTokenResponseSchema v = ParseSuccess data ->
  nonEmpty (access_token data) = true /\ 0 < expires_in data.
Proof.
  unfold UpsOAuthTokenResponseSchema, z_object. destruct v; try discriminate. intros H.
  invert_zap H. injection H as <-. simpl.
  apply z_string_min1_inv in Ha1. apply z_expires_in_positive in Ha0.
  destruct Ha1 as [_ ->]. auto.
Qed.

Section TokenLifetime.

Variable config : UpsConfig.
Variable http : HttpClient.
Variable base64 : string -> string.

Lemma requestToken_Return_inv (w : World) (t : TokenResult) :
  fst (requestToken config http base64 w) = Return t ->
  exists res data,
    http (requests w) (tokenRequest config base64) = Responds res /\
    200 <= status res < 300 /\
    UpsOAuthTokenResponseSchema (responseBody res) = ParseSuccess data /\
    t = {| result_accessToken := access_token data; expiresInSeconds := expires_in data |}.
Proof.
  destruct (http (requests w) (tokenRequest config base64)) as [res|[e|r]] eqn:H.
  - rewrite (requestToken_responds _ _ _ _ _ H).
    destruct (Z.eqb_spec (status res) 401); [discriminate|].
    destruct (Z.eqb_spec (status res) 429); [discriminate|].
    destruct (Z.ltb_spec (status res) 200), (Z.geb_spec (status res) 300); simpl;
      try discriminate.
    destruct (UpsOAuthTokenResponseSchema (responseBody res)) as [data|] eqn:D; [|discriminate].
    intros [= <-]. exists res, data. repeat split; auto; lia.
  - rewrite (requestToken_rejects_structured _ _ _ _ _ H). discriminate.
  - rewrite (requestToken_rejects_raw _ _ _ _ _ H). discriminate.
Qed.

Lemma getValidToken_stale_Return (w : World) (t : TokenResult) :
  stillValid config (cached w) (clock w) = false ->
  fst (requestToken config http base64 w) = Return t ->
  getValidToken config http base64 w
  = (Return (result_accessToken t),
     {| cached := Some {| accessToken := result_accessToken t;
                          expiresAtMs := clock w + expiresInSeconds t * 1000 |};
        clock := clock w;
        requests := (requests w ++ [tokenRequest config base64])%list |}).
Proof.
  intros Hs Ha. rewrite (getValidToken_stale _ _ _ _ Hs).
  now apply acquireAndCache_Return.
Qed.

Lemma getValidToken_stale_Throw (w : World) (e : Thrown) :
  stillValid config (cached w) (clock w) = false ->
  fst (requestToken config http base64 w) = Throw e ->
  getValidToken config http base64 w = (Throw e, logRequest (tokenRequest config base64) w).
Proof.
  intros Hs Ha. rewrite (getValidToken_stale _ _ _ _ Hs).
  now apply acquireAndCache_Throw.
Qed.

Lemma stillValid_cases (w : World) :
  (exists tok, cached w = Some tok /\ clock w < expiresAtMs tok - refreshBufferMs config) \/
  stillValid config (cached w) (clock w) = false.
Proof.
  unfold stillValid. destruct (cached w) as [tok|]; [|now right].
  destruct (Z.ltb_spec (clock w) (expiresAtMs tok - refreshBufferMs config)); [left|now right].
  eauto.
Qed.

End TokenLifetime.

(** X18. A token the acquisition returns is never the empty string and
    always comes with a positive lifetime, 3600 seconds when the response
    names none; it is only ever read from a response with a status from 200
    to 299. *)
Theorem acquired_token_well_formed
  (config : UpsConfig) (http : HttpClient) (base64 : string -> string)
  (w : World) (t : TokenResult) :
  fst (requestToken config http base64 w) = Return t ->
  nonEmpty (result_accessToken t) = true /\
  0 < expiresInSeconds t /\
  exists res,
    http (requests w) (tokenRequest config base64) = Responds res /\
    200 <= status res < 300 /\
    getProp (responseBody res) "access_token" = JStr (result_accessToken t) /\
    (getProp (responseBody res) "expires_in" = JUndefined -> expiresInSeconds t = 3600).
Proof.
  intros H. destruct (requestToken_Return_inv _ _ _ _ _ H) as (res & data & Hres & Hst & Hd & ->).
  destruct (token_schema_sound _ _ Hd) as [Hne Hpos]. simpl.
  split; [assumption|]. split; [assumption|].
  exists res. split; [assumption|]. split; [assumption|].
  unfold UpsOAuthTokenResponseSchema, z_object in Hd.
  destruct (responseBody res); try discriminate.
  invert_zap Hd. injection Hd as <-. simpl.
  apply z_string_min1_inv in Ha1. destruct Ha1 as [-> _].
  split; [reflexivity|]. intros Hu. rewrite Hu in Ha0. now injection Ha0 as <-.
Qed.

Lemma acquired_token_well_formed_witness :
  nonEmpty "test_token_abc123" = true /\ 0 < 3600.
Proof.
  destruct (acquired_token_well_formed sampleConfig happyTransport noText emptyWorld
              {| result_accessToken := "test_token_abc123"; expiresInSeconds := 3600 |}
              eq_refl) as (Hn & Hp & _).
  split; assumption.
Defined.

(** X19. [getValidToken] keeps the cache well formed: if the cached token is
    not the empty string before the call, it is not after it; a token the
    call returns is not empty and is the token the cache holds afterwards. *)
Theorem token_cache_stays_well_formed
  (config : UpsConfig) (http : HttpClient) (base64 : string -> string) (w : World) :
  cacheWellFormed w = true ->
  let out := getValidToken config http base64 w in
  cacheWellFormed (snd out) = true /\
  (forall s, fst out = Return s ->
     nonEmpty s = true /\
     exists tok, cached (snd out) = Some tok /\ accessToken tok = s).
Proof.
  intros Hwf out. subst out.
  destruct (stillValid_cases config w) as [(tok & Hc & Hlt)|Hstale].
  - rewrite (getValidToken_cached _ _ _ _ _ Hc Hlt). simpl.
    split; [assumption|]. intros s [= <-].
    unfold cacheWellFormed in Hwf. rewrite Hc in Hwf. split; [assumption|eauto].
  - destruct (fst (requestToken config http base64 w)) as [t|e] eqn:Ha.
    + rewrite (getValidToken_stale_Return _ _ _ _ _ Hstale Ha). simpl.
      destruct (requestToken_Return_inv _ _ _ _ _ Ha) as (res & data & _ & _ & Hd & Ht).
      destruct (token_schema_sound _ _ Hd) as [Hne _]. subst t. simpl in *.
      unfold cacheWellFormed. simpl. split; [assumption|].
      intros s [= <-]. split; [assumption|eauto].
    + rewrite (getValidToken_stale_Throw _ _ _ _ _ Hstale Ha). simpl.
      split; [exact Hwf|discriminate].
Qed.

Lemma token_cache_stays_well_formed_witness :
  cacheWellFormed (snd (getValidToken sampleConfig happyTransport noText emptyWorld)) = true.
Proof.
  apply (proj1 (token_cache_stays_well_formed sampleConfig happyTransport noText emptyWorld
                  eq_refl)).
Defined.

(** X20. The refresh boundary is inclusive: after an acquisition at time
    [now] that returned a token with lifetime [s] seconds, a call at any time
    from [now + s * 1000 - refreshBufferMs] on, that instant included, sends
    the token request again instead of using the cached token. In particular
    a token whose lifetime does not exceed the refresh buffer is never
    reused. *)
Theorem token_refreshed_from_boundary
  (config : UpsConfig) (http : HttpClient) (base64 : string -> string)
  (w : World) (t : TokenResult) (later : Z) :
  stillValid config (cached w) (clock w) = false ->
  fst (requestToken config http base64 w) = Return t ->
  clock w + expiresInSeconds t * 1000 - refreshBufferMs config <= later ->
  let w1 := snd (getValidToken config http base64 w) in
  requests (snd (getValidToken config http base64 (atTime later w1)))
  = (requests w ++ [tokenRequest config base64; tokenRequest config base64])%list.
Proof.
  intros Hs Ha Hlater w1. subst w1.
  rewrite (getValidToken_stale_Return _ _ _ _ _ Hs Ha). simpl.
  set (w2 := atTime later _).
  assert (Hs2 : stillValid config (cached w2) (clock w2) = false).
  { subst w2. unfold stillValid, atTime. simpl. apply Z.ltb_ge. lia. }
  rewrite (getValidToken_stale _ _ _ _ Hs2).
  destruct (fst (requestToken config http base64 w2)) as [t2|e2] eqn:Ha2.
  - rewrite (acquireAndCache_Return _ _ _ _ _ _ Ha2). subst w2. simpl.
    now rewrite <- app_assoc.
  - rewrite (acquireAndCache_Throw _ _ _ _ _ _ Ha2). subst w2. simpl.
    now rewrite <- app_assoc.
Qed.

Lemma token_refreshed_from_boundary_witness :
  requests (snd (getValidToken sampleConfig happyTransport noText
                   (atTime (clock emptyWorld + 3600 * 1000 - 60 * 1000)
                      (snd (getValidToken sampleConfig happyTransport noText emptyWorld)))))
  = [tokenRequest sampleConfig noText; tokenRequest sampleConfig noText].
Proof.
  apply (token_refreshed_from_boundary sampleConfig happyTransport noText emptyWorld
           {| result_accessToken := "test_token_abc123"; expiresInSeconds := 3600 |}
           (clock emptyWorld + 3600 * 1000 - 60 * 1000)).
  - reflexivity.
  - reflexivity.
  - vm_compute. discriminate.
Defined.

(** X21. After [clearCache] the next [getValidToken] sends the token request
    whatever the clock reads and however fresh the discarded token was;
    [clearCache] itself sends nothing, never fails and leaves an empty cache,
    also when the cache was empty already. *)
Theorem clearCache_forces_acquisition
  (config : UpsConfig) (http : HttpClient) (base64 : string -> string) (w : World) :
  let w1 := snd (clearCache w) in
  fst (clearCache w) = Return tt /\
  cached w1 = None /\
  requests w1 = requests w /\
  snd (clearCache w1) = w1 /\
  forall now,
    requests (snd (getValidToken config http base64 (atTime now w1)))
    = (requests w ++ [tokenRequest config base64])%list.
Proof.
  cbv zeta. unfold clearCache, setCached. simpl. repeat split.
  intros now.
  set (w1 := atTime now _).
  assert (Hs : stillValid config (cached w1) (clock w1) = false) by reflexivity.
  rewrite (getValidToken_stale _ _ _ _ Hs).
  destruct (fst (requestToken config http base64 w1)) as [t|e] eqn:Ha.
  - now rewrite (acquireAndCache_Return _ _ _ _ _ _ Ha).
  - now rewrite (acquireAndCache_Throw _ _ _ _ _ _ Ha).
Qed.

(** ** The UPS carrier behind the dispatcher *)

Lemma parse_throws_structured (body : JsValue) (carrierId : string) (t : Thrown) :
  parseUpsRateResponse body carrierId = Throw t -> exists e, t = ThrownCIE e.
Proof.
  unfold parseUpsRateResponse.
  destruct (UpsRateResponseSchema body) as [parsed|iss]; [|intros [= <-]; eauto].
  destruct (RateResponse_ parsed); [|intros [= <-]; eauto].
  destruct (failingStatus _); [intros [= <-]; eauto|discriminate].
Qed.

Section UpsBehindDispatcher.

Variable config : UpsConfig.
Variable http : HttpClient.
Variable base64 : string -> string.
Variable numberToString : JsNumber -> string.
Variable JSON_stringify : UpsRateRequest -> string.

Lemma UpsRateClient_getRates_rejects
  (getToken : M string) (req : RateRequest) (w w1 : World) (token : string) (t : Thrown) :
  getToken w = (Return token, w1) ->
  http (requests w1) (rateRequest config numberToString JSON_stringify token req) = Rejects t ->
  UpsRateClient_getRates config http numberToString JSON_stringify getToken req w
  = (Throw t, logRequest (rateRequest config numberToString JSON_stringify token req) w1).
Proof.
  intros Htok Hrej. unfold UpsRateClient_getRates. unfold_js. now rewrite Htok, Hrej.
Qed.

Lemma UpsRateClient_getRates_no_token
  (getToken : M string) (req : RateRequest) (w w1 : World) (t : Thrown) :
  getToken w = (Throw t, w1) ->
  UpsRateClient_getRates config http numberToString JSON_stringify getToken req w
  = (Throw t, w1).
Proof.
  intros Htok. unfold UpsRateClient_getRates. unfold_js. now rewrite Htok.
Qed.

(** [getRates] on a service holding the UPS carrier, for a request that
    validates: the completion of the rate client, with a raw exception
    wrapped as UNKNOWN. *)
Lemma ups_getRates_dispatch (request : JsValue) (r : RateRequest) (w : World) :
  RateRequestSchema request = ParseSuccess r ->
  getRates (newCarrierIntegrationService
              [UpsCarrier config http base64 numberToString JSON_stringify])
    "ups" request w
  = (match fst (UpsRateClient_getRates config http numberToString JSON_stringify
                  (getValidToken config http base64) r w) with
     | Return x => Return x
     | Throw (ThrownCIE e) => Throw (ThrownCIE e)
     | Throw (ThrownRaw raw) =>
         Throw (ThrownCIE {| code := UNKNOWN;
                             message := errorMessageOr "Carrier request failed" raw;
                             statusCode := None; carrierCode := None; context := None;
                             cause := Some raw |})
     end,
     snd (UpsRateClient_getRates config http numberToString JSON_stringify
            (getValidToken config http base64) r w)).
Proof.
  intros Hreq. unfold getRates, newCarrierIntegrationService.
  cbn [carriers fold_left mapSet mapGet carrierId UpsCarrier String.eqb Ascii.eqb Bool.eqb
       supports supportedOperations SUPPORTED_OPERATIONS existsb CarrierOperation_eqb
       orb negb execute].
  rewrite Hreq. unfold UpsCarrier_execute. unfold_js.
  destruct (UpsRateClient_getRates config http numberToString JSON_stringify
              (getValidToken config http base64) r w) as [[x|[e|raw]] w']; reflexivity.
Qed.

End UpsBehindDispatcher.

(** X22. With a cached token that is still valid and a request that
    validates, [getRates] on the UPS carrier sends exactly one request, the
    rate request authorised with the cached token, leaves the cache alone,
    and for a response with a status below 400 completes exactly as the parse
    step completes on the response body with carrier id "ups". *)
Theorem dispatcher_returns_what_the_mapper_parses
  (config : UpsConfig) (http : HttpClient) (base64 : string -> string)
  (numberToString : JsNumber -> string) (JSON_stringify : UpsRateRequest -> string)
  (request : JsValue) (r : RateRequest) (w : World) (tok : CachedToken) (res : HttpResponse) :
  RateRequestSchema request = ParseSuccess r ->
  cached w = Some tok ->
  clock w < expiresAtMs tok - refreshBufferMs config ->
  let rq := rateRequest config numberToString JSON_stringify (accessToken tok) r in
  http (requests w) rq = Responds res ->
  status res < 400 ->
  getRates (newCarrierIntegrationService
              [UpsCarrier config http base64 numberToString JSON_stringify])
    "ups" request w
  = (parseUpsRateResponse (responseBody res) "ups",
     {| cached := Some tok; clock := clock w; requests := (requests w ++ [rq])%list |})
  /\ In ("Authorization", "Bearer " ++ accessToken tok) (headers rq).
Proof.
  intros Hreq Hc Hlt rq Hres Hst.
  pose proof (getValidToken_cached config http base64 w tok Hc Hlt) as Htok.
  rewrite (ups_getRates_dispatch _ _ _ _ _ _ _ _ Hreq).
  rewrite (UpsRateClient_getRates_responds _ _ _ _ _ _ _ _ _ _ Htok Hres).
  cbn [fst snd]. unfold logRequest. rewrite Hc.
  destruct (Z.eqb_spec (status res) 401); [lia|].
  destruct (Z.eqb_spec (status res) 429); [lia|].
  destruct (Z.geb_spec (status res) 400); [lia|].
  split; [|simpl; auto].
  destruct (parseUpsRateResponse (responseBody res) "ups") as [x|t] eqn:P; [reflexivity|].
  destruct (parse_throws_structured _ _ _ P) as (e & ->). reflexivity.
Qed.

Lemma dispatcher_returns_what_the_mapper_parses_witness :
  fst (getRates (newCarrierIntegrationService [sampleUps happyTransport])
         "ups" SAMPLE_RATE_REQUEST freshWorld)
  = parseUpsRateResponse UPS_RATE_SUCCESS "ups".
Proof.
  destruct (dispatcher_returns_what_the_mapper_parses sampleConfig happyTransport
              noText noText noText SAMPLE_RATE_REQUEST sampleRateRequest freshWorld
              {| accessToken := "cached_token"; expiresAtMs := 5000000 |}
              {| status := 200; responseHeaders := []; responseBody := UPS_RATE_SUCCESS |}
              eq_refl eq_refl eq_refl eq_refl eq_refl)
    as [H _].
  unfold sampleUps. rewrite H. reflexivity.
Defined.

(** X23. A 401 on the rate call is raised as AUTH_TOKEN_EXPIRED with status
    401, and the token stays in the cache: nothing clears it, so the next
    [getValidToken] hands out the same token again without a token
    request. *)
Theorem unauthorized_rate_call_keeps_token
  (config : UpsConfig) (http : HttpClient) (base64 : string -> string)
  (numberToString : JsNumber -> string) (JSON_stringify : UpsRateRequest -> string)
  (request : JsValue) (r : RateRequest) (w : World) (tok : CachedToken) (res : HttpResponse) :
  RateRequestSchema request = ParseSuccess r ->
  cached w = Some tok ->
  clock w < expiresAtMs tok - refreshBufferMs config ->
  http (requests w) (rateRequest config numberToString JSON_stringify (accessToken tok) r)
  = Responds res ->
  status res = 401 ->
  let out := getRates (newCarrierIntegrationService
                         [UpsCarrier config http base64 numberToString JSON_stringify])
               "ups" request w in
  (exists e, fst out = Throw (ThrownCIE e) /\ code e = AUTH_TOKEN_EXPIRED /\
             statusCode e = Some 401) /\
  cached (snd out) = Some tok /\
  getValidToken config http base64 (snd out) = (Return (accessToken tok), snd out).
Proof.
  intros Hreq Hc Hlt Hres Hst out. subst out.
  pose proof (getValidToken_cached config http base64 w tok Hc Hlt) as Htok.
  rewrite (ups_getRates_dispatch _ _ _ _ _ _ _ _ Hreq).
  rewrite (UpsRateClient_getRates_responds _ _ _ _ _ _ _ _ _ _ Htok Hres).
  cbn [fst snd]. rewrite Hst. simpl.
  split; [eexists; repeat split|]. split; [assumption|].
  apply getValidToken_cached; assumption.
Qed.

Lemma unauthorized_rate_call_keeps_token_witness :
  cached (snd (getRates (newCarrierIntegrationService [sampleUps unauthorizedTransport])
                 "ups" SAMPLE_RATE_REQUEST freshWorld))
  = Some {| accessToken := "cached_token"; expiresAtMs := 5000000 |}.
Proof.
  apply (unauthorized_rate_call_keeps_token sampleConfig unauthorizedTransport
           noText noText noText SAMPLE_RATE_REQUEST sampleRateRequest freshWorld
           {| accessToken := "cached_token"; expiresAtMs := 5000000 |}
           {| status := 401; responseHeaders := []; responseBody := JObj [] |});
    reflexivity.
Defined.

(** X24. When the transport rejects the rate call with a value that is not a
    structured error, [getRates] raises UNKNOWN with that value as cause, and
    this holds for an abort as for any other failure: a timeout of the rate
    call is UNKNOWN, not TIMEOUT. One request was sent and none is sent
    again. *)
Theorem rate_call_rejection_is_unknown
  (config : UpsConfig) (http : HttpClient) (base64 : string -> string)
  (numberToString : JsNumber -> string) (JSON_stringify : UpsRateRequest -> string)
  (request : JsValue) (r : RateRequest) (w : World) (tok : CachedToken) (raw : RawThrown) :
  RateRequestSchema request = ParseSuccess r ->
  cached w = Some tok ->
  clock w < expiresAtMs tok - refreshBufferMs config ->
  let rq := rateRequest config numberToString JSON_stringify (accessToken tok) r in
  http (requests w) rq = Rejects (ThrownRaw raw) ->
  exists e,
    getRates (newCarrierIntegrationService
                [UpsCarrier config http base64 numberToString JSON_stringify])
      "ups" request w
    = (Throw (ThrownCIE e), logRequest rq w) /\
    code e = UNKNOWN /\
    message e = errorMessageOr "Carrier request failed" raw /\
    cause e = Some raw.
Proof.
  intros Hreq Hc Hlt rq Hrej.
  pose proof (getValidToken_cached config http base64 w tok Hc Hlt) as Htok.
  rewrite (ups_getRates_dispatch _ _ _ _ _ _ _ _ Hreq).
  rewrite (UpsRateClient_getRates_rejects _ _ _ _ _ _ _ _ _ _ Htok Hrej).
  cbn [fst snd]. eexists. repeat split.
Qed.

Lemma rate_call_rejection_is_unknown_witness :
  exists e,
    fst (getRates (newCarrierIntegrationService [sampleUps abortingTransport])
           "ups" SAMPLE_RATE_REQUEST freshWorld) = Throw (ThrownCIE e) /\
    isTimeout (JsError "AbortError" "This operation was aborted") = true /\
    code e = UNKNOWN.
Proof.
  destruct (rate_call_rejection_is_unknown sampleConfig abortingTransport
              noText noText noText SAMPLE_RATE_REQUEST sampleRateRequest freshWorld
              {| accessToken := "cached_token"; expiresAtMs := 5000000 |}
              (JsError "AbortError" "This operation was aborted")
              eq_refl eq_refl eq_refl eq_refl) as (e & He & Hc & _).
  exists e. unfold sampleUps. rewrite He. repeat split. exact Hc.
Defined.

(** X25. When the cache has no valid token and the acquisition fails,
    [getRates] raises the acquisition's structured error unchanged and the
    rate request is never sent: the token request is the only request. *)
Theorem failed_acquisition_sends_no_rate_request
  (config : UpsConfig) (http : HttpClient) (base64 : string -> string)
  (numberToString : JsNumber -> string) (JSON_stringify : UpsRateRequest -> string)
  (request : JsValue) (r : RateRequest) (w : World) (t : Thrown) :
  RateRequestSchema request = ParseSuccess r ->
  stillValid config (cached w) (clock w) = false ->
  fst (requestToken config http base64 w) = Throw t ->
  getRates (newCarrierIntegrationService
              [UpsCarrier config http base64 numberToString JSON_stringify])
    "ups" request w
  = (Throw t, {| cached := cached w; clock := clock w;
                 requests := (requests w ++ [tokenRequest config base64])%list |})
  /\ isCarrierIntegrationError t = true.
Proof.
  intros Hreq Hs Ha.
  pose proof (requestToken_throws_structured _ _ _ _ _ Ha) as Hcie.
  split; [|assumption].
  rewrite (ups_getRates_dispatch _ _ _ _ _ _ _ _ Hreq).
  rewrite (UpsRateClient_getRates_no_token _ _ _ _ _ _ _ _ _
             (getValidToken_stale_Throw _ _ _ _ _ Hs Ha)).
  cbn [fst snd]. destruct t; [reflexivity|discriminate].
Qed.

Lemma failed_acquisition_sends_no_rate_request_witness :
  requests (snd (getRates (newCarrierIntegrationService [sampleUps unauthorizedTransport])
                   "ups" SAMPLE_RATE_REQUEST emptyWorld))
  = [tokenRequest sampleConfig noText].
Proof.
  destruct (failed_acquisition_sends_no_rate_request sampleConfig unauthorizedTransport
              noText noText noText SAMPLE_RATE_REQUEST sampleRateRequest emptyWorld
              (ThrownCIE {| code := AUTH_FAILED;
                            message := "UPS OAuth: invalid client credentials (401)";
                            statusCode := Some 401; carrierCode := None;
                            context := Some [("url", JStr "https://auth.example.com/token")];
                            cause := None |})
              eq_refl eq_refl eq_refl) as [H _].
  unfold sampleUps. rewrite H. reflexivity.
Defined.

(** X26. The UPS carrier declares the rate operation and no other, and its
    [execute] agrees: any other operation fails with VALIDATION_ERROR naming
    the supported operations, and touches neither the cache nor the
    transport. *)
Theorem ups_supports_rate_only
  (config : UpsConfig) (http : HttpClient) (base64 : string -> string)
  (numberToString : JsNumber -> string) (JSON_stringify : UpsRateRequest -> string)
  (op : CarrierOperation) :
  let ups := UpsCarrier config http base64 numberToString JSON_stringify in
  (supports op ups = true <-> op = rate) /\
  (op <> rate ->
   forall input w,
     exists e, execute ups (OtherInput op input) w = (Throw (ThrownCIE e), w) /\
               code e = VALIDATION_ERROR /\
               context e = Some [("carrierId", JStr "ups"); ("supported", JArr [JStr "rate"])]).
Proof.
  cbv zeta. split.
  - destruct op; simpl; split; try discriminate; reflexivity.
  - intros _ input w. eexists. repeat split.
Qed.

Lemma ups_supports_rate_only_witness :
  exists e,
    execute (sampleUps happyTransport) (OtherInput label JNull) emptyWorld
    = (Throw (ThrownCIE e), emptyWorld) /\ code e = VALIDATION_ERROR.
Proof.
  destruct (proj2 (ups_supports_rate_only sampleConfig happyTransport noText noText noText
                     label) ltac:(discriminate) JNull emptyWorld) as (e & He & Hc & _).
  exists e. split; assumption.
Defined.
